(** * ibicus debiasers: QuantileMapping and ECDFM

    A shallow embedding of [debias/_quantile_mapping.py] and
    [debias/_ecdfm.py], and of the goodness-of-fit table of
    [evaluate/evaluation_functions.py].  Arrays are lists, Python exceptions and numerically
    undefined results are explicit outcomes, the injected distribution is a
    record of its three operations, and the helpers imported from
    [ibicus.utils] are taken as interfaces.  The engine is generic in the
    scalar type; the exact rationals [Qc] instantiate it whenever a statement
    needs the laws of arithmetic or a concrete run. *)

From Stdlib Require Import QArith Qcanon.
From stdpp Require Import base numbers list strings gmap.

Set Default Proof Using "Type".

(** ** Scalars

    The operations the two debiasers perform on array elements.  Division is
    partial: [None] stands for the result of dividing by zero, which numpy
    computes as inf or nan under a RuntimeWarning and which the debiasers
    neither catch nor special-case. *)

Class Scalar (T : Type) := {
  s_zero : T;
  s_one : T;
  s_add : T → T → T;
  s_sub : T → T → T;
  s_mul : T → T → T;
  s_div : T → T → option T;
  s_min : T → T → T;
  s_max : T → T → T;
  s_of_nat : nat → T
}.

(** ** Outcomes of a call *)

Inductive exn := TypeError | ValueError | IndexError | AttributeError.

Inductive outcome (A : Type) :=
  | Ok (a : A)
  | Undefined
  | Raise (e : exn).
Arguments Ok {A} a.
Arguments Undefined {A}.
Arguments Raise {A} e.

#[global] Instance outcome_ret : MRet outcome := λ A a, Ok a.
#[global] Instance outcome_bind : MBind outcome := λ A B k o,
  match o with
  | Ok a => k a
  | Undefined => Undefined
  | Raise e => Raise e
  end.

Definition of_option {A} (o : option A) : outcome A :=
  match o with
  | Some a => Ok a
  | None => Undefined
  end.

Definition returns {A} (o : outcome A) : Prop := ∃ a, o = Ok a.
Definition raises {A} (o : outcome A) : Prop := ∃ e, o = Raise e.

(** ** numpy on one-dimensional arrays *)

Section numpy.
Context {T : Type} `{Scalar T}.

(** [np.mean]: the sum over the element count; an empty array divides zero
    by zero. *)
Definition np_sum (a : list T) : T := foldl s_add s_zero a.

Definition np_mean (a : list T) : outcome T :=
  of_option (s_div (np_sum a) (s_of_nat (length a))).

(** Array and scalar: [a - d], [a + d], [a * d], [a / d]. *)
Definition arr_sub_scalar (a : list T) (d : T) : list T := (λ x, s_sub x d) <$> a.
Definition arr_add_scalar (a : list T) (d : T) : list T := (λ x, s_add x d) <$> a.
Definition arr_mul_scalar (a : list T) (d : T) : list T := (λ x, s_mul x d) <$> a.
Definition arr_div_scalar (a : list T) (d : T) : outcome (list T) :=
  of_option (mapM (λ x, s_div x d) a).

(** Array and array, [a + b] and [a - b], under the broadcasting rule for one
    dimension: the two lengths are equal, or one of them is 1 and its element
    is paired with every element of the other array; any other pair of
    lengths is a ValueError. *)
Definition broadcast2 (f : T → T → T) (a b : list T) : outcome (list T) :=
  if bool_decide (length a = length b) then Ok (zip_with f a b)
  else match a, b with
       | [x], _ => Ok (f x <$> b)
       | _, [y] => Ok ((λ x, f x y) <$> a)
       | _, _ => Raise ValueError
       end.

Definition arr_add (a b : list T) : outcome (list T) := broadcast2 s_add a b.
Definition arr_sub (a b : list T) : outcome (list T) := broadcast2 s_sub a b.

(** [a[idx]] with an integer index array: every index has to be in range. *)
Definition take_indices {A} (a : list A) (idx : list nat) : outcome (list A) :=
  match mapM (λ i, a !! i) idx with
  | Some r => Ok r
  | None => Raise IndexError
  end.

(** [a[mask]] with a boolean mask of the array's own length. *)
Fixpoint compress {A} (mask : list bool) (a : list A) : list A :=
  match mask, a with
  | b :: mask', x :: a' => if b then x :: compress mask' a' else compress mask' a'
  | _, _ => []
  end.

Definition select_mask {A} (a : list A) (mask : list bool) : outcome (list A) :=
  if bool_decide (length mask = length a)
  then Ok (compress mask a)
  else Raise IndexError.

(** [np.in1d(a, b)]: for each element of [a], whether it occurs in [b]. *)
Definition in1d (a b : list nat) : list bool := (λ i, bool_decide (i ∈ b)) <$> a.

(** [np.logical_and] on two masks. *)
Definition logical_and (a b : list bool) : list bool := zip_with andb a b.

(** [out[idx] = vals] with an integer index array: [vals] has either the
    shape of [idx] or a single element that is broadcast, which is tested
    first, and every index has to be in range; the writes go left to right,
    so a repeated index keeps the last value. *)
Definition write_all {A} (out : list A) (idx : list nat) (vals : list A) : list A :=
  foldl (λ o iv, <[iv.1 := iv.2]> o) out (zip idx vals).

Definition assign_indices {A} (out : list A) (idx : list nat) (vals : list A)
    : outcome (list A) :=
  if bool_decide (length vals = length idx) then
    if bool_decide (Forall (λ i, i < length out)%nat idx)
    then Ok (write_all out idx vals)
    else Raise IndexError
  else match vals with
       | [v] =>
           if bool_decide (Forall (λ i, i < length out)%nat idx)
           then Ok (write_all out idx (replicate (length idx) v))
           else Raise IndexError
       | _ => Raise ValueError
       end.

End numpy.

(** ** The statistical model

    What [self.distribution] offers: [fit] on a sample gives parameters that
    the engine only passes on to [cdf] and [ppf], both from arrays to
    arrays.  Failures inside a model are not part of the engine. *)

Record Distribution (T : Type) := {
  params : Type;
  fit : list T → params;
  cdf : list T → params → list T;
  ppf : list T → params → list T
}.
Arguments params {T} _.
Arguments fit {T} _ _.
Arguments cdf {T} _ _ _.
Arguments ppf {T} _ _ _.

(** [cdf] and [ppf] return one value per input value, as the distributions
    of scipy.stats do. *)
Definition ShapePreserving {T} (m : Distribution T) : Prop :=
  (∀ x p, length (cdf m x p) = length x) ∧ (∀ q p, length (ppf m q p) = length q).

(** The PPF of a model undoes its CDF. *)
Definition inverts {T} (m : Distribution T) : Prop :=
  ∀ x p, ppf m (cdf m x p) p = x.

(** ** Constructor arguments and the attrs validators *)

Inductive pyval (T : Type) :=
  | PyNone
  | PyBool (b : bool)
  | PyInt (z : Z)
  | PyFloat (x : T)
  | PyStr (s : string)
  | PyDistribution (m : Distribution T).
Arguments PyNone {T}.
Arguments PyBool {T} b.
Arguments PyInt {T} z.
Arguments PyFloat {T} x.
Arguments PyStr {T} s.
Arguments PyDistribution {T} m.

Section validators.
Context {T : Type}.

(** [attrs.validators.instance_of]: a TypeError for a value of another
    type.  As in Python, a bool is an instance of int. *)
Definition instance_of_distribution (v : pyval T) : outcome (Distribution T) :=
  match v with
  | PyDistribution m => Ok m
  | _ => Raise TypeError
  end.

Definition instance_of_float (v : pyval T) : outcome T :=
  match v with
  | PyFloat x => Ok x
  | _ => Raise TypeError
  end.

Definition instance_of_bool (v : pyval T) : outcome bool :=
  match v with
  | PyBool b => Ok b
  | _ => Raise TypeError
  end.

Definition instance_of_int (v : pyval T) : outcome Z :=
  match v with
  | PyInt z => Ok z
  | PyBool b => Ok (Z.b2z b)
  | _ => Raise TypeError
  end.

(** [attrs.validators.gt(0)] and [attrs.validators.in_(options)]: a
    ValueError for a value that fails the test. *)
Definition gt_0 (z : Z) : outcome Z :=
  if bool_decide (0 < z)%Z then Ok z else Raise ValueError.

Definition in_ (options : list string) (v : pyval T) : outcome string :=
  match v with
  | PyStr s => if bool_decide (s ∈ options) then Ok s else Raise ValueError
  | _ => Raise ValueError
  end.

End validators.

(** A value that passes [instance_of(int)] and then [gt(0)]. *)
Definition positive_int {T} (v : pyval T) : Prop :=
  match v with
  | PyInt z => (0 < z)%Z
  | PyBool b => b = true
  | _ => False
  end.

(** ** QuantileMapping *)

Module QuantileMapping.

Record t (T : Type) := {
  distribution : Distribution T;
  detrending : string
}.
Arguments distribution {T} _.
Arguments detrending {T} _.

Definition detrending_options : list string :=
  ["additive"; "multiplicative"; "no_detrending"].

Definition default_detrending {T} : pyval T := PyStr "no_detrending".

Section debiaser.
Context {T : Type} `{Scalar T}.

(** The generated [__init__]: the validators of the fields of the class run
    in field order once the values are set, and the first failure is
    raised.  The inherited field [variable], a label without effect on the
    transform, is left out. *)
Definition init (distribution detrending : pyval T) : outcome (t T) :=
  d ← instance_of_distribution distribution;
  s ← in_ detrending_options detrending;
  Ok {| distribution := d; detrending := s |}.

Definition _standard_qm (self : t T) (x : list T)
    (fit_cm_hist fit_obs : params (distribution self)) : list T :=
  ppf (distribution self) (cdf (distribution self) x fit_cm_hist) fit_obs.

Definition apply_location (self : t T) (obs cm_hist cm_future : list T)
    : outcome (list T) :=
  let fit_obs := fit (distribution self) obs in
  let fit_cm_hist := fit (distribution self) cm_hist in
  if bool_decide (detrending self = "additive") then
    mean_future ← np_mean cm_future;
    mean_hist ← np_mean cm_hist;
    let delta := s_sub mean_future mean_hist in
    Ok (arr_add_scalar
          (_standard_qm self (arr_sub_scalar cm_future delta) fit_cm_hist fit_obs)
          delta)
  else if bool_decide (detrending self = "multiplicative") then
    mean_future ← np_mean cm_future;
    mean_hist ← np_mean cm_hist;
    delta ← of_option (s_div mean_future mean_hist);
    scaled ← arr_div_scalar cm_future delta;
    Ok (arr_mul_scalar (_standard_qm self scaled fit_cm_hist fit_obs) delta)
  else if bool_decide (detrending self = "no_detrending") then
    Ok (_standard_qm self cm_future fit_cm_hist fit_obs)
  else Raise ValueError.

End debiaser.
End QuantileMapping.

(** ** What ECDFM imports from ibicus.utils

    The time helpers, the running window over days of the year and the
    contents of freshly allocated memory are an interface: the debiaser is
    defined and verified for every implementation of it.  The iterator
    returned by [use] is the list of the pairs it yields. *)

Class Utils (T : Type) := {
  time : Type;
  infer_and_create_time_arrays_if_not_given :
    list T → list T → list T →
    option (list time) → option (list time) → option (list time) →
    list time * list time * list time;
  check_time_information_and_raise_error :
    list T → list T → list T → list time → list time → list time → option exn;
  year : list time → list Z;
  day_of_year : list time → list Z;
  RunningWindowOverDaysOfYear : Type;
  new_running_window : Z → Z → outcome RunningWindowOverDaysOfYear;
  use : RunningWindowOverDaysOfYear → list Z → list Z → list (Z * list nat);
  get_indices_vals_in_window : RunningWindowOverDaysOfYear → list Z → Z → list nat;
  uninitialised : nat → T
}.

(** [np.empty_like(a)]: an array of the shape and the dtype of [a] whose
    cells hold whatever the memory held. *)
Definition empty_like {T} `{Utils T} (a : list T) : list T :=
  uninitialised <$> seq 0 (length a).

(** Modelled from the spec: [threshold_cdf_vals] of ibicus.utils, the CDF
    threshold clipper, a pure elementwise function that clamps CDF outputs
    into [threshold, 1 - threshold]. *)
Definition threshold_cdf_vals {T} `{Scalar T} (cdf_vals : list T) (cdf_threshold : T)
    : list T :=
  (λ v, s_max (s_min v (s_sub s_one cdf_threshold)) cdf_threshold) <$> cdf_vals.

(** Modelled from the spec: [get_mask_for_unique_subarray] of ibicus.utils,
    the uniqueness mask: true at the first occurrence of each value of the
    array, false at every repetition. *)
Fixpoint unique_mask_from (seen x : list nat) : list bool :=
  match x with
  | [] => []
  | i :: x' => bool_decide (i ∉ seen) :: unique_mask_from (i :: seen) x'
  end.

Definition get_mask_for_unique_subarray (x : list nat) : list bool :=
  unique_mask_from [] x.

(** ** ECDFM *)

Inductive warning := TimeInformationInferred.

Module ECDFM.

Record t (T : Type) `{Utils T} := {
  distribution : Distribution T;
  cdf_threshold : T;
  running_window_mode : bool;
  running_window_length : Z;
  running_window_step_length : Z;
  running_window : option RunningWindowOverDaysOfYear
}.
Arguments distribution {T _} _.
Arguments cdf_threshold {T _} _.
Arguments running_window_mode {T _} _.
Arguments running_window_length {T _} _.
Arguments running_window_step_length {T _} _.
Arguments running_window {T _} _.

Definition default_running_window_mode {T} : pyval T := PyBool true.
Definition default_running_window_length {T} : pyval T := PyInt 31.
Definition default_running_window_step_length {T} : pyval T := PyInt 31.

Section debiaser.
Context {T : Type} `{Scalar T} `{Utils T}.

(** The generated [__init__]: the field validators in field order, then
    [__attrs_post_init__], which builds the running window in running-window
    mode only. *)
Definition init (distribution cdf_threshold running_window_mode
    running_window_length running_window_step_length : pyval T) : outcome (t T) :=
  d ← instance_of_distribution distribution;
  thr ← instance_of_float cdf_threshold;
  mode ← instance_of_bool running_window_mode;
  len ← instance_of_int running_window_length ≫= gt_0;
  step ← instance_of_int running_window_step_length ≫= gt_0;
  rw ← (if mode then w ← new_running_window len step; Ok (Some w) else Ok None);
  Ok {| distribution := d; cdf_threshold := thr; running_window_mode := mode;
        running_window_length := len; running_window_step_length := step;
        running_window := rw |}.

Definition _apply_on_within_year_window (self : t T) (obs cm_hist cm_future : list T)
    : outcome (list T) :=
  let fit_obs := fit (distribution self) obs in
  let fit_cm_hist := fit (distribution self) cm_hist in
  let fit_cm_future := fit (distribution self) cm_future in
  let quantile_cm_future :=
    threshold_cdf_vals (cdf (distribution self) cm_future fit_cm_future)
                       (cdf_threshold self) in
  shifted ← arr_add cm_future (ppf (distribution self) quantile_cm_future fit_obs);
  arr_sub shifted (ppf (distribution self) quantile_cm_future fit_cm_hist).

(** One pass of the loop body: the three donor subsets, the correction on
    them, the values kept by the mask, and their scatter into the output. *)
Definition correct_window (self : t T) (rw : RunningWindowOverDaysOfYear)
    (obs cm_hist cm_future : list T)
    (days_of_year_obs days_of_year_cm_hist days_of_year_cm_future : list Z)
    (debiased_cm_future : list T) (yielded : Z * list nat) : outcome (list T) :=
  let window_center := yielded.1 in
  let indices_bias_corrected_values := yielded.2 in
  let indices_window_obs :=
    get_indices_vals_in_window rw days_of_year_obs window_center in
  let indices_window_cm_hist :=
    get_indices_vals_in_window rw days_of_year_cm_hist window_center in
  let indices_window_cm_future :=
    get_indices_vals_in_window rw days_of_year_cm_future window_center in
  obs_w ← take_indices obs indices_window_obs;
  cm_hist_w ← take_indices cm_hist indices_window_cm_hist;
  cm_future_w ← take_indices cm_future indices_window_cm_future;
  corrected ← _apply_on_within_year_window self obs_w cm_hist_w cm_future_w;
  kept ← select_mask corrected
            (logical_and
               (in1d indices_window_cm_future indices_bias_corrected_values)
               (get_mask_for_unique_subarray indices_window_cm_future));
  assign_indices debiased_cm_future indices_bias_corrected_values kept.

Fixpoint correct_windows (step : list T → Z * list nat → outcome (list T))
    (debiased_cm_future : list T) (windows : list (Z * list nat)) : outcome (list T) :=
  match windows with
  | [] => Ok debiased_cm_future
  | w :: windows' =>
      out ← step debiased_cm_future w;
      correct_windows step out windows'
  end.

(** The time arrays the running window works on: the given ones, or, as
    soon as one is missing, the inferred ones together with a warning. *)
Definition time_information (obs cm_hist cm_future : list T)
    (time_obs time_cm_hist time_cm_future : option (list time))
    : list warning * (list time * list time * list time) :=
  match time_obs, time_cm_hist, time_cm_future with
  | Some a, Some b, Some c => ([], (a, b, c))
  | _, _, _ =>
      ([TimeInformationInferred],
       infer_and_create_time_arrays_if_not_given
         obs cm_hist cm_future time_obs time_cm_hist time_cm_future)
  end.

Definition apply_location (self : t T) (obs cm_hist cm_future : list T)
    (time_obs time_cm_hist time_cm_future : option (list time))
    : list warning * outcome (list T) :=
  if running_window_mode self then
    let '(warned, (t_obs, t_cm_hist, t_cm_future)) :=
      time_information obs cm_hist cm_future time_obs time_cm_hist time_cm_future in
    (warned,
     match check_time_information_and_raise_error
             obs cm_hist cm_future t_obs t_cm_hist t_cm_future with
     | Some e => Raise e
     | None =>
         let years_cm_future := year t_cm_future in
         let days_of_year_obs := day_of_year t_obs in
         let days_of_year_cm_hist := day_of_year t_cm_hist in
         let days_of_year_cm_future := day_of_year t_cm_future in
         let debiased_cm_future := empty_like cm_future in
         rw ← match running_window self with
              | Some rw => Ok rw
              | None => Raise AttributeError
              end;
         correct_windows
           (correct_window self rw obs cm_hist cm_future
              days_of_year_obs days_of_year_cm_hist days_of_year_cm_future)
           debiased_cm_future
           (use rw days_of_year_cm_future years_cm_future)
     end)
  else ([], _apply_on_within_year_window self obs cm_hist cm_future).

(** The same call for a [cm_future] of any dtype.  The array
    [np.empty_like(cm_future)] has the dtype of [cm_future], and the store
    at the target indices converts the kept corrections to it; the branch
    without running window returns the corrections as they are.  [astype]
    is that conversion: it is the identity when [cm_future] is an array of
    floats, the case the definitions above are written for, and it drops
    the fractional part when [cm_future] is an array of integers. *)
Definition correct_window_astype (astype : T → T) (self : t T)
    (rw : RunningWindowOverDaysOfYear) (obs cm_hist cm_future : list T)
    (days_of_year_obs days_of_year_cm_hist days_of_year_cm_future : list Z)
    (debiased_cm_future : list T) (yielded : Z * list nat) : outcome (list T) :=
  let window_center := yielded.1 in
  let indices_bias_corrected_values := yielded.2 in
  let indices_window_obs :=
    get_indices_vals_in_window rw days_of_year_obs window_center in
  let indices_window_cm_hist :=
    get_indices_vals_in_window rw days_of_year_cm_hist window_center in
  let indices_window_cm_future :=
    get_indices_vals_in_window rw days_of_year_cm_future window_center in
  obs_w ← take_indices obs indices_window_obs;
  cm_hist_w ← take_indices cm_hist indices_window_cm_hist;
  cm_future_w ← take_indices cm_future indices_window_cm_future;
  corrected ← _apply_on_within_year_window self obs_w cm_hist_w cm_future_w;
  kept ← select_mask corrected
            (logical_and
               (in1d indices_window_cm_future indices_bias_corrected_values)
               (get_mask_for_unique_subarray indices_window_cm_future));
  assign_indices debiased_cm_future indices_bias_corrected_values (astype <$> kept).

Definition apply_location_astype (astype : T → T) (self : t T)
    (obs cm_hist cm_future : list T)
    (time_obs time_cm_hist time_cm_future : option (list time))
    : list warning * outcome (list T) :=
  if running_window_mode self then
    let '(warned, (t_obs, t_cm_hist, t_cm_future)) :=
      time_information obs cm_hist cm_future time_obs time_cm_hist time_cm_future in
    (warned,
     match check_time_information_and_raise_error
             obs cm_hist cm_future t_obs t_cm_hist t_cm_future with
     | Some e => Raise e
     | None =>
         let years_cm_future := year t_cm_future in
         let days_of_year_obs := day_of_year t_obs in
         let days_of_year_cm_hist := day_of_year t_cm_hist in
         let days_of_year_cm_future := day_of_year t_cm_future in
         let debiased_cm_future := empty_like cm_future in
         rw ← match running_window self with
              | Some rw => Ok rw
              | None => Raise AttributeError
              end;
         correct_windows
           (correct_window_astype astype self rw obs cm_hist cm_future
              days_of_year_obs days_of_year_cm_hist days_of_year_cm_future)
           debiased_cm_future
           (use rw days_of_year_cm_future years_cm_future)
     end)
  else ([], _apply_on_within_year_window self obs cm_hist cm_future).

End debiaser.
End ECDFM.

(** ** The formulas of the specification

    Written after the design document, to be compared with the functions
    above: the per-window core of ECDFM and the detrended quantile mapping. *)

Module Spec.
Section formulas.
Context {T : Type} `{Scalar T}.

(** Clamp one CDF value into [threshold, 1 - threshold]. *)
Definition clip (threshold v : T) : T :=
  s_max (s_min v (s_sub s_one threshold)) threshold.

(** [output = cm_future + ppf(q, params_obs) - ppf(q, params_hist)] with
    [q = clip(cdf(cm_future, params_future), cdf_threshold)] and the three
    parameters fitted independently. *)
Definition quantile (m : Distribution T) (threshold : T) (cm_future : list T) : list T :=
  let params_future := fit m cm_future in
  clip threshold <$> cdf m cm_future params_future.

Definition ecdfm_window (m : Distribution T) (threshold : T)
    (obs cm_hist cm_future : list T) : list T :=
  let params_obs := fit m obs in
  let params_hist := fit m cm_hist in
  let q := quantile m threshold cm_future in
  zip_with s_sub (zip_with s_add cm_future (ppf m q params_obs)) (ppf m q params_hist).

(** [transform(x) = ppf(cdf(x, params_hist), params_obs)]. *)
Definition standard_qm (m : Distribution T) (obs cm_hist x : list T) : list T :=
  ppf m (cdf m x (fit m cm_hist)) (fit m obs).

(** [delta = mean(cm_future) - mean(cm_hist)]; map [cm_future - delta]; add
    [delta] back. *)
Definition additive_delta (cm_hist cm_future : list T) : outcome T :=
  mean_future ← np_mean cm_future;
  mean_hist ← np_mean cm_hist;
  Ok (s_sub mean_future mean_hist).

Definition additive (m : Distribution T) (obs cm_hist cm_future : list T)
    : outcome (list T) :=
  delta ← additive_delta cm_hist cm_future;
  Ok ((λ y, s_add y delta) <$>
        standard_qm m obs cm_hist ((λ x, s_sub x delta) <$> cm_future)).

(** [delta = mean(cm_future) / mean(cm_hist)]; map [cm_future / delta];
    multiply the result by [delta]. *)
Definition multiplicative_delta (cm_hist cm_future : list T) : outcome T :=
  mean_future ← np_mean cm_future;
  mean_hist ← np_mean cm_hist;
  of_option (s_div mean_future mean_hist).

Definition multiplicative (m : Distribution T) (obs cm_hist cm_future : list T)
    : outcome (list T) :=
  delta ← multiplicative_delta cm_hist cm_future;
  scaled ← of_option (mapM (λ x, s_div x delta) cm_future);
  Ok ((λ y, s_mul y delta) <$> standard_qm m obs cm_hist scaled).

End formulas.
End Spec.

(** ** Valid inputs *)

(** What a running window has to yield for the loop of ECDFM to go through:
    donor indices within their series, and target indices that are pairwise
    distinct and all among the donor indices of [cm_future]. *)
Definition window_valid {T} `{Utils T} (rw : RunningWindowOverDaysOfYear)
    (obs cm_hist cm_future : list T) (t_obs t_cm_hist t_cm_future : list time)
    (yielded : Z * list nat) : Prop :=
  Forall (λ i, i < length obs)%nat
    (get_indices_vals_in_window rw (day_of_year t_obs) yielded.1)
  ∧ Forall (λ i, i < length cm_hist)%nat
      (get_indices_vals_in_window rw (day_of_year t_cm_hist) yielded.1)
  ∧ Forall (λ i, i < length cm_future)%nat
      (get_indices_vals_in_window rw (day_of_year t_cm_future) yielded.1)
  ∧ NoDup yielded.2
  ∧ Forall (λ i, i ∈ get_indices_vals_in_window rw (day_of_year t_cm_future) yielded.1)
      yielded.2.

Definition windows_valid {T} `{Utils T} (rw : RunningWindowOverDaysOfYear)
    (obs cm_hist cm_future : list T) (t_obs t_cm_hist t_cm_future : list time) : Prop :=
  Forall (window_valid rw obs cm_hist cm_future t_obs t_cm_hist t_cm_future)
    (use rw (day_of_year t_cm_future) (year t_cm_future)).

(** The correction computed in one pass of the loop, before the mask: the
    per-window core on the three donor subsets of a window center. *)
Definition window_correction {T} `{Scalar T} `{Utils T} (self : ECDFM.t T)
    (rw : RunningWindowOverDaysOfYear) (obs cm_hist cm_future : list T)
    (t_obs t_cm_hist t_cm_future : list time) (window_center : Z)
    : outcome (list T) :=
  obs_w ← take_indices obs
             (get_indices_vals_in_window rw (day_of_year t_obs) window_center);
  cm_hist_w ← take_indices cm_hist
                 (get_indices_vals_in_window rw (day_of_year t_cm_hist) window_center);
  cm_future_w ← take_indices cm_future
                   (get_indices_vals_in_window rw (day_of_year t_cm_future)
                      window_center);
  ECDFM._apply_on_within_year_window self obs_w cm_hist_w cm_future_w.

(** The donor indices of a window center lie within their series. *)
Definition donors_in_range {T} `{Utils T} (rw : RunningWindowOverDaysOfYear)
    (obs cm_hist cm_future : list T) (t_obs t_cm_hist t_cm_future : list time)
    (window_center : Z) : Prop :=
  Forall (λ i, i < length obs)%nat
    (get_indices_vals_in_window rw (day_of_year t_obs) window_center)
  ∧ Forall (λ i, i < length cm_hist)%nat
      (get_indices_vals_in_window rw (day_of_year t_cm_hist) window_center)
  ∧ Forall (λ i, i < length cm_future)%nat
      (get_indices_vals_in_window rw (day_of_year t_cm_future) window_center).

(** The donor indices of [cm_future] do not repeat, and the targets are the
    donor indices that are targets, in the order of the donor indices: what
    two ascending index arrays give, the targets being among the donors. *)
Definition window_aligned {T} `{Utils T} (rw : RunningWindowOverDaysOfYear)
    (t_cm_future : list time) (yielded : Z * list nat) : Prop :=
  NoDup (get_indices_vals_in_window rw (day_of_year t_cm_future) yielded.1)
  ∧ filter (λ i, i ∈ yielded.2)
      (get_indices_vals_in_window rw (day_of_year t_cm_future) yielded.1)
    = yielded.2.

(** How an output array of the dtype of [cm_future] stands to the array of
    the corrections themselves: equal lengths, the cells written so far,
    those of [written], hold the converted value, the others the same
    value. *)
Definition stored_as {T} (astype : T → T) (written : nat → Prop)
    (converted plain : list T) : Prop :=
  length converted = length plain
  ∧ ∀ i, (written i → converted !! i = astype <$> plain !! i)
         ∧ (¬ written i → converted !! i = plain !! i).

(** All the target indices of a run, in the order they are yielded. *)
Definition all_targets (windows : list (Z * list nat)) : list nat :=
  concat (windows.*2).

(** The inputs on which the arithmetic of the chosen detrending is defined. *)
Definition detrending_defined {T} `{Scalar T} (self : QuantileMapping.t T)
    (cm_hist cm_future : list T) : Prop :=
  if bool_decide (QuantileMapping.detrending self = "additive") then
    returns (Spec.additive_delta cm_hist cm_future)
  else if bool_decide (QuantileMapping.detrending self = "multiplicative") then
    ∃ delta, Spec.multiplicative_delta cm_hist cm_future = Ok delta
             ∧ returns (arr_div_scalar cm_future delta)
  else QuantileMapping.detrending self = "no_detrending".

(** ** evaluate: goodness of fit

    [goodness_of_fit_aic] of [evaluate/evaluation_functions.py].  The
    distribution is used through [fit], whose result is the tuple of the
    fitted parameters, and [logpdf]; either may fail.  The dataset is an
    array of three dimensions, time first, and the data frame returned is
    the list of its rows, under the columns x, y and AIC. *)

Module evaluation_functions.

Record rv (T : Type) := {
  fit : list T → outcome (list T);
  logpdf : list T → list T → outcome (list T)
}.
Arguments fit {T} _ _.
Arguments logpdf {T} _ _ _.

Record ndarray3 (T : Type) := {
  shape : nat * nat * nat;
  item : nat → nat → nat → T
}.
Arguments shape {T} _.
Arguments item {T} _ _ _ _.

(** What a caller passes as [distribution_name]: a string, or an object
    with the two methods. *)
Inductive pyobj (T : Type) :=
  | PyName (s : string)
  | PyRv (d : rv T).
Arguments PyName {T} s.
Arguments PyRv {T} d.

Definition default_distribution_name {T} : pyobj T := PyName "default".

(** A [for] loop over a list whose body may raise. *)
Fixpoint for_each {A S} (body : S → A → outcome S) (s : S) (l : list A)
    : outcome S :=
  match l with
  | [] => Ok s
  | x :: l' => s' ← body s x; for_each body s' l'
  end.

Section goodness_of_fit.
Context {T : Type} `{Scalar T}.

(** [scipy.stats.norm] and [scipy.stats.gamma]. *)
Variables (norm gamma : rv T).

(** Of each entry of [variable_dictionary] only the key 'distribution',
    which both entries have, is read here. *)
Definition variable_dictionary : gmap string (rv T) :=
  {[ "tas" := norm; "pr" := gamma ]}.

(** [dataset[:, i, j]] *)
Definition slice (dataset : ndarray3 T) (i j : nat) : list T :=
  (λ t, item dataset t i j) <$> seq 0 (shape dataset).1.1.

(** The body of the inner loop up to [aic_location]; a string has neither
    [fit] nor [logpdf]. *)
Definition aic_location (distribution : pyobj T) (data : list T) : outcome T :=
  match distribution with
  | PyName _ => Raise AttributeError
  | PyRv d =>
      fit ← fit d data;
      let k := length fit in
      log_densities ← logpdf d data fit;
      let logLik := np_sum log_densities in
      Ok (s_sub (s_of_nat (2 * k)) (s_mul (s_of_nat 2) logLik))
  end.

Definition goodness_of_fit_aic (variable : string) (dataset : ndarray3 T)
    (distribution_name : pyobj T) : outcome (list (T * T * T)) :=
  distribution ←
    match distribution_name with
    | PyName s =>
        if bool_decide (s = "default") then
          match variable_dictionary !! variable with
          | Some d => Ok (PyRv d)
          | None => Raise AttributeError
          end
        else Ok (PyName s)
    | PyRv d => Ok (PyRv d)
    end;
  for_each
    (λ aic i,
       for_each
         (λ aic j,
            a ← aic_location distribution (slice dataset i j);
            Ok (aic ++ [(s_of_nat i, s_of_nat j, a)]))
         aic (seq 0 (shape dataset).2))
    [] (seq 0 (shape dataset).1.2).

End goodness_of_fit.
End evaluation_functions.

(** ** Exact rational arithmetic

    The scalars [Qc] with division undefined at zero: the instance for the
    statements that rest on the laws of arithmetic, and for concrete runs. *)

Definition Qc_leb (x y : Qc) : bool :=
  match Qccompare x y with
  | Gt => false
  | _ => true
  end.

Definition Qc_div (x y : Qc) : option Qc :=
  match Qccompare y 0%Qc with
  | Eq => None
  | _ => Some (x / y)%Qc
  end.

#[global] Instance Qc_scalar : Scalar Qc := {
  s_zero := 0%Qc;
  s_one := 1%Qc;
  s_add := Qcplus;
  s_sub := Qcminus;
  s_mul := Qcmult;
  s_div := Qc_div;
  s_min x y := if Qc_leb x y then x else y;
  s_max x y := if Qc_leb x y then y else x;
  s_of_nat n := Qc_of_Z (Z.of_nat n)
}.

Definition qc (n : Z) (d : positive) : Qc := Q2Qc (n # d).

(** The conversion of a value to an integer dtype, which drops the
    fractional part. *)
Definition astype_int (x : Qc) : Qc :=
  Qc_of_Z (Z.quot (Qnum (this x)) (Zpos (Qden (this x)))).

(** A model on the rationals: a location family whose CDF is the rational
    sigmoid, with the sample mean as its fitted location.  Its CDF is
    strictly increasing with values strictly between 0 and 1, and its PPF is
    the exact inverse. *)
Definition sigmoid (y : Qc) : Qc :=
  if Qc_leb 0 y then (1 - 1 / (2 * (1 + y)))%Qc else (1 / (2 * (1 - y)))%Qc.

Definition sigmoid_inv (q : Qc) : Qc :=
  if Qc_leb (qc 1 2) q then (1 / (2 * (1 - q)) - 1)%Qc else (1 - 1 / (2 * q))%Qc.

Definition location_fit (sample : list Qc) : Qc :=
  match np_mean sample with
  | Ok m => m
  | _ => 0%Qc
  end.

Definition sigmoid_model : Distribution Qc := {|
  params := Qc;
  fit := location_fit;
  cdf x loc := (λ v, sigmoid (v - loc)) <$> x;
  ppf q loc := (λ u, sigmoid_inv u + loc)%Qc <$> q
|}.

(** An implementation of the helper interface on the rationals, for concrete
    runs: a time stamp is a day count from a January 1st in a calendar of
    366-day years, missing time arrays count from zero, the lengths are
    checked, a window holds the days at circular distance at most half its
    length from its center, and the centers start at day 1 and advance by
    the step, each one correcting the days from itself up to the next. *)
Definition circular_distance (d c : Z) : Z :=
  Z.min (Z.abs (d - c)) (366 - Z.abs (d - c)).

Definition indices_where (P : Z → bool) (days : list Z) : list nat :=
  (filter (λ id : nat * Z, P id.2 = true) (zip (seq 0 (length days)) days)).*1.

Definition sample_centers (step : Z) : list Z :=
  (λ k : nat, 1 + Z.of_nat k * step)%Z <$> seq 0 (Z.to_nat ((365 + step) / step)).

Definition sample_utils : Utils Qc := {|
  time := nat;
  infer_and_create_time_arrays_if_not_given obs cm_hist cm_future t1 t2 t3 :=
    (default (seq 0 (length obs)) t1,
     default (seq 0 (length cm_hist)) t2,
     default (seq 0 (length cm_future)) t3);
  check_time_information_and_raise_error obs cm_hist cm_future t1 t2 t3 :=
    if bool_decide (length obs = length t1 ∧ length cm_hist = length t2
                    ∧ length cm_future = length t3)
    then None else Some ValueError;
  year t := (λ d : nat, Z.of_nat d / 366)%Z <$> t;
  day_of_year t := (λ d : nat, Z.of_nat d mod 366 + 1)%Z <$> t;
  RunningWindowOverDaysOfYear := (Z * Z)%type;
  new_running_window len step := Ok (len, step);
  use rw days years :=
    (λ c, (c, indices_where (λ d, bool_decide (c ≤ d < c + rw.2)%Z) days))
      <$> sample_centers rw.2;
  get_indices_vals_in_window rw days c :=
    indices_where (λ d, bool_decide (circular_distance d c ≤ rw.1 / 2)%Z) days;
  uninitialised _ := 0%Qc
|}.

(** A second implementation of the helper interface, for concrete runs on
    windows given as a table: [use] yields the listed pairs and the donor
    indices of every series are the listed ones. *)
Definition table_utils (windows : list (Z * list nat)) (donors : Z → list nat)
    : Utils Qc := {|
  time := nat;
  infer_and_create_time_arrays_if_not_given obs cm_hist cm_future t1 t2 t3 :=
    (default (seq 0 (length obs)) t1,
     default (seq 0 (length cm_hist)) t2,
     default (seq 0 (length cm_future)) t3);
  check_time_information_and_raise_error obs cm_hist cm_future t1 t2 t3 :=
    if bool_decide (length obs = length t1 ∧ length cm_hist = length t2
                    ∧ length cm_future = length t3)
    then None else Some ValueError;
  year t := (λ d : nat, Z.of_nat d / 366)%Z <$> t;
  day_of_year t := (λ d : nat, Z.of_nat d mod 366 + 1)%Z <$> t;
  RunningWindowOverDaysOfYear := unit;
  new_running_window len step := Ok ();
  use rw days years := windows;
  get_indices_vals_in_window rw days c := donors c;
  uninitialised i := qc (- Z.of_nat i) 1
|}.

Definition ecdfm_on_table (windows : list (Z * list nat)) (donors : Z → list nat)
    : @ECDFM.t Qc (table_utils windows donors) :=
  @ECDFM.Build_t Qc (table_utils windows donors)
    sigmoid_model (qc 1 4) true 31%Z 31%Z (Some ()).

(** Three tables over series of four values: targets that leave the cells
    2 and 3 out, and three targets of which two, or one, are among the donor
    indices. *)
Definition targets_leave_cells_out : Utils Qc :=
  table_utils [(1%Z, [0; 1]%nat)] (λ _, [0; 1; 2]%nat).

Definition two_targets_of_three_inside : Utils Qc :=
  table_utils [(1%Z, [0; 1; 3]%nat)] (λ _, [0; 1; 2]%nat).

Definition one_target_of_three_inside : Utils Qc :=
  table_utils [(1%Z, [0; 1; 3]%nat)] (λ _, [0; 2]%nat).

(** Two windows that both target the cell 1, with different donors. *)
Definition overlapping_targets_table : Utils Qc :=
  table_utils [(1%Z, [0; 1]%nat); (2%Z, [1; 2; 3]%nat)]
    (λ c, if bool_decide (c = 1%Z) then [0; 1; 2]%nat else [1; 2; 3]%nat).

(** A distribution on the rationals for runs of the goodness-of-fit table:
    one fitted parameter, the sample mean, and a log density that falls with
    the squared distance from it.  The second one has no parameter and a
    constant log density. *)
Definition squared_distance_rv : evaluation_functions.rv Qc := {|
  evaluation_functions.fit data := m ← np_mean data; Ok [m];
  evaluation_functions.logpdf data parameters :=
    match parameters with
    | [loc] => Ok ((λ v, - ((v - loc) * (v - loc)))%Qc <$> data)
    | _ => Raise TypeError
    end
|}.

Definition flat_rv : evaluation_functions.rv Qc := {|
  evaluation_functions.fit data := Ok [];
  evaluation_functions.logpdf data parameters := Ok ((λ _, 0%Qc) <$> data)
|}.

(** Two time steps on a grid of two by three. *)
Definition dataset0 : evaluation_functions.ndarray3 Qc := {|
  evaluation_functions.shape := (2, 2, 3)%nat;
  evaluation_functions.item t i j :=
    qc (Z.of_nat (t * (1 + i + 2 * j) + i * j)) 1
|}.

(** A grid without columns. *)
Definition dataset_no_columns : evaluation_functions.ndarray3 Qc := {|
  evaluation_functions.shape := (2, 2, 0)%nat;
  evaluation_functions.item t i j := 0%Qc
|}.

(** The fitted parameters and the log densities of a grid cell, for naming
    them in a run. *)
Definition fitted (d : evaluation_functions.rv Qc)
    (dataset : evaluation_functions.ndarray3 Qc) (i j : nat) : list Qc :=
  match evaluation_functions.fit d (evaluation_functions.slice dataset i j) with
  | Ok parameters => parameters
  | _ => []
  end.

Definition log_densities_of (d : evaluation_functions.rv Qc)
    (dataset : evaluation_functions.ndarray3 Qc) (i j : nat) : list Qc :=
  match evaluation_functions.logpdf d (evaluation_functions.slice dataset i j)
          (fitted d dataset i j) with
  | Ok values => values
  | _ => []
  end.

(** Sample series and debiasers. *)
Definition show (a : list Qc) : list Q := this <$> a.

Definition obs0 : list Qc := [qc 1 1; qc 2 1; qc 4 1].
Definition cm_hist0 : list Qc := [qc 0 1; qc 3 1].
Definition cm_future0 : list Qc := [qc 10 1; qc 1 1; qc 1 2; qc 5 1].

Definition obs4 : list Qc := [qc 1 1; qc 2 1; qc 4 1; qc 3 1].
Definition obs_late : list Qc := [qc 1 1; qc 2 1; qc 4 1; qc 8 1].

(** A projection with whole numbers as values, as an array of integers
    has them. *)
Definition cm_future_int : list Qc := [qc 10 1; qc 1 1; qc 3 1; qc 5 1].
Definition cm_hist4 : list Qc := [qc 0 1; qc 3 1; qc 1 1; qc 2 1].

(** A series whose CDF values under its own fit, 1/22 and 21/22, lie outside
    [1/4, 3/4], and one whose CDF values, 1/3 and 2/3, lie inside. *)
Definition cm_spread : list Qc := [qc 0 1; qc 20 1].
Definition cm_narrow : list Qc := [qc 0 1; qc 1 1].

Definition additive_qm : QuantileMapping.t Qc :=
  {| QuantileMapping.distribution := sigmoid_model;
     QuantileMapping.detrending := "additive" |}.

Definition multiplicative_qm : QuantileMapping.t Qc :=
  {| QuantileMapping.distribution := sigmoid_model;
     QuantileMapping.detrending := "multiplicative" |}.

Definition plain_qm : QuantileMapping.t Qc :=
  {| QuantileMapping.distribution := sigmoid_model;
     QuantileMapping.detrending := "no_detrending" |}.

(** A debiaser no constructor call returns: its detrending is none of the
    three names. *)
Definition unnamed_qm : QuantileMapping.t Qc :=
  {| QuantileMapping.distribution := sigmoid_model;
     QuantileMapping.detrending := "linear" |}.

(** Observations with the mean, hence the fit, of [cm_hist0]. *)
Definition obs_like_hist : list Qc := [qc 1 1; qc 2 1].

Section sample_debiasers.
Local Existing Instance sample_utils.

Definition ecdfm_whole_period : ECDFM.t Qc :=
  {| ECDFM.distribution := sigmoid_model;
     ECDFM.cdf_threshold := qc 1 4;
     ECDFM.running_window_mode := false;
     ECDFM.running_window_length := 31%Z;
     ECDFM.running_window_step_length := 31%Z;
     ECDFM.running_window := None |}.

Definition ecdfm_windowed : ECDFM.t Qc :=
  {| ECDFM.distribution := sigmoid_model;
     ECDFM.cdf_threshold := qc 1 4;
     ECDFM.running_window_mode := true;
     ECDFM.running_window_length := 31%Z;
     ECDFM.running_window_step_length := 10%Z;
     ECDFM.running_window := Some (31%Z, 10%Z) |}.

(** A window of three days advancing by two: the windows of the first four
    days differ in their donors and in their targets. *)
Definition ecdfm_short_window : ECDFM.t Qc :=
  {| ECDFM.distribution := sigmoid_model;
     ECDFM.cdf_threshold := qc 1 4;
     ECDFM.running_window_mode := true;
     ECDFM.running_window_length := 3%Z;
     ECDFM.running_window_step_length := 2%Z;
     ECDFM.running_window := Some (3%Z, 2%Z) |}.

(** A window longer than the year that advances by more than a year: one
    center, whose window and whose targets hold every day. *)
Definition ecdfm_yearlong_window : ECDFM.t Qc :=
  {| ECDFM.distribution := sigmoid_model;
     ECDFM.cdf_threshold := qc 1 4;
     ECDFM.running_window_mode := true;
     ECDFM.running_window_length := 800%Z;
     ECDFM.running_window_step_length := 400%Z;
     ECDFM.running_window := Some (800%Z, 400%Z) |}.

(** The state after switching the mode on, on an instance built with the
    mode off: no running window was made. *)
Definition ecdfm_mode_switched : ECDFM.t Qc :=
  {| ECDFM.distribution := sigmoid_model;
     ECDFM.cdf_threshold := qc 1 4;
     ECDFM.running_window_mode := true;
     ECDFM.running_window_length := 31%Z;
     ECDFM.running_window_step_length := 31%Z;
     ECDFM.running_window := None |}.

End sample_debiasers.

Ltac qc_closed_nonzero :=
  let E := fresh in intros E; apply Qceq_alt in E; vm_compute in E; discriminate E.

(** ** Outcomes: elementary facts *)

Lemma returns_not_raises {A} (o : outcome A) : returns o → ¬ raises o.
Proof. intros [a ->] [e He]. discriminate He. Qed.

Lemma raises_bind {A B} (o : outcome A) (k : A → outcome B) :
  raises o → raises (o ≫= k).
Proof. intros [e ->]. by exists e. Qed.

Lemma bind_Ok {A B} (o : outcome A) (k : A → outcome B) (b : B) :
  o ≫= k = Ok b ↔ ∃ a, o = Ok a ∧ k a = Ok b.
Proof.
  split.
  - destruct o as [a| |e]; simpl; intros Hk; try discriminate Hk. by exists a.
  - intros (a & -> & Hk). exact Hk.
Qed.

Lemma of_option_Ok {A} (o : option A) (a : A) : of_option o = Ok a ↔ o = Some a.
Proof. destruct o; simpl; split; congruence. Qed.

Lemma bind_Ok_l {A B} (a : A) (k : A → outcome B) : Ok a ≫= k = k a.
Proof. reflexivity. Qed.

Lemma bind_Undefined_l {A B} (k : A → outcome B) : Undefined ≫= k = Undefined.
Proof. reflexivity. Qed.

(** ** The engine on any scalars *)

Section engine.
Context {T : Type} `{Scalar T} `{Utils T}.

Lemma arr_div_scalar_length (a : list T) (d : T) (r : list T) :
  arr_div_scalar a d = Ok r → length r = length a.
Proof.
  unfold arr_div_scalar. rewrite of_option_Ok. intros Hr.
  symmetry. exact (length_mapM _ _ _ Hr).
Qed.

Lemma broadcast2_same_length (f : T → T → T) (a b : list T) :
  length a = length b → broadcast2 f a b = Ok (zip_with f a b).
Proof. intros Hlen. unfold broadcast2. by rewrite bool_decide_eq_true_2. Qed.

Lemma threshold_cdf_vals_clip (v : list T) (threshold : T) :
  threshold_cdf_vals v threshold = Spec.clip threshold <$> v.
Proof. reflexivity. Qed.

Lemma ecdfm_window_unfold (self : ECDFM.t T) (obs cm_hist cm_future : list T) :
  let m := ECDFM.distribution self in
  let q := Spec.quantile m (ECDFM.cdf_threshold self) cm_future in
  ECDFM._apply_on_within_year_window self obs cm_hist cm_future
    = (shifted ← arr_add cm_future (ppf m q (fit m obs));
       arr_sub shifted (ppf m q (fit m cm_hist))).
Proof. reflexivity. Qed.

Lemma ecdfm_window_spec (self : ECDFM.t T) (obs cm_hist cm_future : list T) :
  let m := ECDFM.distribution self in
  let q := Spec.quantile m (ECDFM.cdf_threshold self) cm_future in
  length (ppf m q (fit m obs)) = length cm_future →
  length (ppf m q (fit m cm_hist)) = length cm_future →
  ECDFM._apply_on_within_year_window self obs cm_hist cm_future
    = Ok (Spec.ecdfm_window m (ECDFM.cdf_threshold self) obs cm_hist cm_future).
Proof.
  intros m q Hobs Hhist. rewrite ecdfm_window_unfold. fold m q.
  unfold arr_add, arr_sub.
  rewrite broadcast2_same_length, bind_Ok_l by done.
  rewrite broadcast2_same_length; [done|].
  rewrite length_zip_with, Hobs, Hhist. lia.
Qed.

(** C1.  The per-window core of ECDFM returns
    [cm_future + ppf(q, params_obs) - ppf(q, params_hist)], the three
    parameters being fitted independently on [obs], [cm_hist] and
    [cm_future], and [q] being the CDF of [cm_future] under its own fit with
    every value clamped by [max(min(v, 1 - cdf_threshold), cdf_threshold)];
    for a model that returns one value per input value the sum and the
    difference are taken element by element. *)
Theorem ecdfm_window_formula (self : ECDFM.t T) (obs cm_hist cm_future : list T) :
  let m := ECDFM.distribution self in
  let threshold := ECDFM.cdf_threshold self in
  let params_obs := fit m obs in
  let params_hist := fit m cm_hist in
  let params_future := fit m cm_future in
  let q := Spec.quantile m threshold cm_future in
  ECDFM._apply_on_within_year_window self obs cm_hist cm_future
    = (shifted ← arr_add cm_future (ppf m q params_obs);
       arr_sub shifted (ppf m q params_hist))
  ∧ (ShapePreserving m →
     ECDFM._apply_on_within_year_window self obs cm_hist cm_future
       = Ok (zip_with s_sub (zip_with s_add cm_future (ppf m q params_obs))
                      (ppf m q params_hist)))
  ∧ length q = length (cdf m cm_future params_future)
  ∧ ∀ i, q !! i =
      (λ v, s_max (s_min v (s_sub s_one threshold)) threshold)
        <$> cdf m cm_future params_future !! i.
Proof.
  intros m threshold params_obs params_hist params_future q.
  assert (length q = length (cdf m cm_future params_future)) as Hq
    by (unfold q, Spec.quantile; by rewrite length_fmap).
  split; [reflexivity|]. split; [|split; [exact Hq|]].
  - intros [Hcdf Hppf]. apply ecdfm_window_spec; fold m threshold q.
    + by rewrite Hppf, Hq, Hcdf.
    + by rewrite Hppf, Hq, Hcdf.
  - intros i. unfold q, Spec.quantile. by rewrite list_lookup_fmap.
Qed.

(** C3.  With additive detrending, for any model, [apply_location] is
    [standard_qm(cm_future - delta) + delta] with
    [delta = mean(cm_future) - mean(cm_hist)] and
    [standard_qm(x) = ppf(cdf(x, fit(cm_hist)), fit(obs))]. *)
Theorem additive_detrending_formula (self : QuantileMapping.t T)
    (obs cm_hist cm_future : list T) :
  QuantileMapping.detrending self = "additive" →
  let m := QuantileMapping.distribution self in
  QuantileMapping.apply_location self obs cm_hist cm_future
    = Spec.additive m obs cm_hist cm_future
  ∧ ∀ mean_future mean_hist,
      np_mean cm_future = Ok mean_future →
      np_mean cm_hist = Ok mean_hist →
      let delta := s_sub mean_future mean_hist in
      QuantileMapping.apply_location self obs cm_hist cm_future
        = Ok ((λ y, s_add y delta) <$>
                ppf m (cdf m ((λ x, s_sub x delta) <$> cm_future) (fit m cm_hist))
                      (fit m obs)).
Proof.
  intros Hmode m.
  assert (QuantileMapping.apply_location self obs cm_hist cm_future
          = Spec.additive m obs cm_hist cm_future) as Heq.
  { unfold QuantileMapping.apply_location. rewrite Hmode. simpl.
    unfold Spec.additive, Spec.additive_delta.
    destruct (np_mean cm_future) as [mf| |e]; [|reflexivity..].
    destruct (np_mean cm_hist) as [mh| |e]; reflexivity. }
  split; [exact Heq|].
  intros mf mh Hf Hh delta. rewrite Heq.
  unfold Spec.additive, Spec.additive_delta. rewrite Hf, Hh. reflexivity.
Qed.

(** The multiplicative branch, for any scalars: the code is the formula of
    the specification, evaluated with the division it is given. *)
Lemma multiplicative_detrending_spec (self : QuantileMapping.t T)
    (obs cm_hist cm_future : list T) :
  QuantileMapping.detrending self = "multiplicative" →
  QuantileMapping.apply_location self obs cm_hist cm_future
    = Spec.multiplicative (QuantileMapping.distribution self) obs cm_hist cm_future.
Proof.
  intros Hmode. unfold QuantileMapping.apply_location. rewrite Hmode. simpl.
  unfold Spec.multiplicative, Spec.multiplicative_delta.
  destruct (np_mean cm_future) as [mf| |e]; [|reflexivity..].
  destruct (np_mean cm_hist) as [mh| |e]; [|reflexivity..].
  simpl. destruct (s_div mf mh) as [delta|]; reflexivity.
Qed.

Lemma no_detrending_spec (self : QuantileMapping.t T) (obs cm_hist cm_future : list T) :
  QuantileMapping.detrending self = "no_detrending" →
  QuantileMapping.apply_location self obs cm_hist cm_future
    = Ok (Spec.standard_qm (QuantileMapping.distribution self) obs cm_hist cm_future).
Proof. intros Hmode. unfold QuantileMapping.apply_location. rewrite Hmode. reflexivity. Qed.

(** C10.  With [running_window_mode = False], [apply_location] of ECDFM
    does not look at the time arguments: whatever they are, absent or of a
    wrong length, the result is the per-window core on the whole series,
    with no warning and no validation. *)
Theorem ecdfm_time_ignored_without_window (self : ECDFM.t T)
    (obs cm_hist cm_future : list T)
    (time_obs time_cm_hist time_cm_future : option (list time))
    (time_obs' time_cm_hist' time_cm_future' : option (list time)) :
  ECDFM.running_window_mode self = false →
  ECDFM.apply_location self obs cm_hist cm_future time_obs time_cm_hist time_cm_future
    = ECDFM.apply_location self obs cm_hist cm_future
        time_obs' time_cm_hist' time_cm_future'
  ∧ ECDFM.apply_location self obs cm_hist cm_future time_obs time_cm_hist time_cm_future
    = ([], ECDFM._apply_on_within_year_window self obs cm_hist cm_future).
Proof.
  intros Hmode. unfold ECDFM.apply_location. rewrite Hmode. split; reflexivity.
Qed.

End engine.

(** ** Construction *)

Section construction.
Context {T : Type} `{Scalar T} `{Utils T}.

Lemma window_length_validators_cases (v : pyval T) :
  (positive_int v ∧ returns (instance_of_int v ≫= gt_0))
  ∨ (¬ positive_int v ∧ raises (instance_of_int v ≫= gt_0)).
Proof.
  destruct v as [|b|z|x|s|m]; simpl;
    try (right; split; [tauto|by exists TypeError]).
  - destruct b; [left|right]; split; try done.
    + by exists 1%Z.
    + by exists ValueError.
  - unfold gt_0. case_bool_decide; [left|right]; split; try done.
    + by exists z.
    + by exists ValueError.
Qed.

Lemma window_length_validators (v : pyval T) :
  ¬ positive_int v → raises (instance_of_int v ≫= gt_0).
Proof. destruct (window_length_validators_cases v) as [[? _]|[_ ?]]; tauto. Qed.

Lemma window_length_validators_pass (z : Z) :
  (0 < z)%Z → instance_of_int (T:=T) (PyInt z) ≫= gt_0 = Ok z.
Proof. intros Hz. simpl. unfold gt_0. by rewrite bool_decide_eq_true_2. Qed.

(** C7.  A QuantileMapping whose [detrending] is none of "additive",
    "multiplicative", "no_detrending", and an ECDFM whose
    [running_window_length] or [running_window_step_length] is not an int
    above zero, are refused by the constructor: it raises, so that no
    debiaser exists on which [apply_location] could be called. *)
Theorem construction_rejects_bad_configuration :
  (∀ distribution detrending : pyval T,
     (∀ s, detrending = PyStr s → s ∉ QuantileMapping.detrending_options) →
     raises (QuantileMapping.init distribution detrending)
     ∧ ¬ returns (QuantileMapping.init distribution detrending))
  ∧ (∀ distribution cdf_threshold running_window_mode
       running_window_length running_window_step_length : pyval T,
     ¬ positive_int running_window_length
       ∨ ¬ positive_int running_window_step_length →
     raises (ECDFM.init distribution cdf_threshold running_window_mode
               running_window_length running_window_step_length)
     ∧ ¬ returns (ECDFM.init distribution cdf_threshold running_window_mode
                    running_window_length running_window_step_length)).
Proof.
  assert (∀ A (o : outcome A), raises o → raises o ∧ ¬ returns o) as Hboth.
  { intros A o Hr. split; [exact Hr|]. intros Hret.
    exact (returns_not_raises o Hret Hr). }
  split.
  - intros distribution detrending Hbad. apply Hboth.
    unfold QuantileMapping.init.
    destruct (instance_of_distribution distribution) as [d| |e] eqn:Hd; simpl;
      [|by destruct distribution|by exists e].
    apply raises_bind. destruct detrending as [|b|z|x|s|m]; simpl;
      try (by exists ValueError).
    rewrite bool_decide_eq_false_2 by (by apply Hbad). by exists ValueError.
  - intros distribution cdf_threshold mode len step Hbad. apply Hboth.
    unfold ECDFM.init.
    destruct (instance_of_distribution distribution) as [d| |e] eqn:Hd; simpl;
      [|by destruct distribution|by exists e].
    destruct (instance_of_float cdf_threshold) as [thr| |e] eqn:Hthr; simpl;
      [|by destruct cdf_threshold|by exists e].
    destruct (instance_of_bool mode) as [b| |e] eqn:Hb; simpl;
      [|by destruct mode|by exists e].
    destruct (window_length_validators_cases len) as [[Hlen [l Hl]]|[_ Hl]].
    + destruct Hbad as [Hbad|Hbad]; [contradiction|].
      rewrite Hl. simpl. apply raises_bind. by apply window_length_validators.
    + by apply raises_bind.
Qed.

(** C8, as the code has it.  The constructor of ECDFM checks the type of
    [cdf_threshold] and nothing else: a value that is not a float raises,
    and every float, inside the interval (0, 0.5) or not, is stored as it
    is, the construction failing then only if another field or the running
    window refuses. *)
Theorem ecdfm_threshold_type_checked_only :
  (∀ distribution cdf_threshold running_window_mode
     running_window_length running_window_step_length : pyval T,
     (∀ x, cdf_threshold ≠ PyFloat x) →
     raises (ECDFM.init distribution cdf_threshold running_window_mode
               running_window_length running_window_step_length))
  ∧ (∀ (m : Distribution T) (x : T) (mode : bool) (len step : Z),
     (0 < len)%Z → (0 < step)%Z →
     ECDFM.init (PyDistribution m) (PyFloat x) (PyBool mode) (PyInt len) (PyInt step)
       = rw ← (if mode then w ← new_running_window len step; Ok (Some w)
               else Ok None);
         Ok {| ECDFM.distribution := m; ECDFM.cdf_threshold := x;
               ECDFM.running_window_mode := mode;
               ECDFM.running_window_length := len;
               ECDFM.running_window_step_length := step;
               ECDFM.running_window := rw |}).
Proof.
  split.
  - intros distribution cdf_threshold mode len step Hnot.
    unfold ECDFM.init.
    destruct (instance_of_distribution distribution) as [d| |e] eqn:Hd; simpl;
      [|by destruct distribution|by exists e].
    apply raises_bind.
    destruct cdf_threshold as [|b|z|x|s|m]; simpl; try (by exists TypeError).
    by destruct (Hnot x).
  - intros m x mode len step Hlen Hstep. unfold ECDFM.init. simpl.
    unfold gt_0. rewrite !bool_decide_eq_true_2 by assumption. reflexivity.
Qed.

End construction.

(** ** Quantile mapping on the rationals *)

Section rationals.
Local Open Scope Qc_scope.

Lemma Qc_div_None (x y : Qc) : Qc_div x y = None ↔ y = 0.
Proof.
  unfold Qc_div. destruct (Qccompare y 0) eqn:Hc.
  - apply Qceq_alt in Hc. tauto.
  - split; [discriminate|]. intros ->. discriminate Hc.
  - split; [discriminate|]. intros ->. discriminate Hc.
Qed.

Lemma Qc_div_Some (x y : Qc) : y ≠ 0 → Qc_div x y = Some (x / y).
Proof.
  intros Hy. unfold Qc_div. destruct (Qccompare y 0) eqn:Hc; try reflexivity.
  apply Qceq_alt in Hc. contradiction.
Qed.

Lemma Qc_div_zero_l (y : Qc) : 0 / y = 0.
Proof. unfold Qcdiv. apply Qcmult_0_l. Qed.

Lemma Qc_div_eq_zero (x y : Qc) : y ≠ 0 → x / y = 0 → x = 0.
Proof.
  intros Hy Hq. rewrite <- (Qcmult_div_r x y Hy), Hq. apply Qcmult_0_r.
Qed.

Lemma Qc_leb_le (x y : Qc) : Qc_leb x y = true ↔ x <= y.
Proof.
  unfold Qc_leb. rewrite Qcle_alt.
  destruct (Qccompare x y); split; done.
Qed.

Lemma Qc_leb_gt (x y : Qc) : Qc_leb x y = false ↔ y < x.
Proof.
  rewrite Qclt_nge, <- Qc_leb_le. destruct (Qc_leb x y); split; done.
Qed.

Lemma Qc_of_nat_zero (n : nat) : s_of_nat (T:=Qc) n = 0 ↔ n = 0%nat.
Proof.
  simpl. rewrite <- Z2Qc_inj_0, Z2Qc_inj_iff. lia.
Qed.

(** [np.mean] is defined on the non-empty arrays, and on them only. *)
Lemma np_mean_nil : np_mean (T:=Qc) [] = Undefined.
Proof. reflexivity. Qed.

Lemma np_mean_cons (x : Qc) (a : list Qc) :
  np_mean (x :: a) = Ok (np_sum (x :: a) / s_of_nat (S (length a))).
Proof.
  unfold np_mean. change (s_div (T:=Qc)) with Qc_div.
  rewrite Qc_div_Some; [reflexivity|].
  rewrite Qc_of_nat_zero. discriminate.
Qed.

Lemma np_mean_returns (a : list Qc) : returns (np_mean a) ↔ a ≠ [].
Proof.
  destruct a as [|x a].
  - rewrite np_mean_nil. split; [intros [m Hm]; discriminate Hm|done].
  - rewrite np_mean_cons. split; [done|]. intros _. by eexists.
Qed.

Lemma np_mean_not_raise (a : list Qc) (e : exn) : np_mean a ≠ Raise e.
Proof. destruct a; [rewrite np_mean_nil|rewrite np_mean_cons]; discriminate. Qed.

(** [cm_future / delta], element by element. *)
Lemma arr_div_scalar_nonzero (a : list Qc) (d : Qc) :
  d ≠ 0 → arr_div_scalar a d = Ok ((λ x, x / d) <$> a).
Proof.
  intros Hd. unfold arr_div_scalar. change (s_div (T:=Qc)) with Qc_div.
  replace (mapM (λ x, Qc_div x d) a) with (Some ((λ x, x / d) <$> a));
    [reflexivity|].
  symmetry. apply mapM_Some. induction a as [|x a IH]; simpl.
  - constructor.
  - constructor; [by apply Qc_div_Some|exact IH].
Qed.

Lemma arr_div_scalar_zero (a : list Qc) :
  a ≠ [] → arr_div_scalar a 0 = Undefined.
Proof.
  intros Ha. unfold arr_div_scalar. change (s_div (T:=Qc)) with Qc_div.
  destruct a as [|x a]; [done|]. reflexivity.
Qed.

End rationals.

Section multiplicative.
Local Open Scope Qc_scope.
Implicit Types (self : QuantileMapping.t Qc) (obs cm_hist cm_future : list Qc).

Lemma multiplicative_delta_defined cm_hist cm_future (mean_future mean_hist : Qc) :
  np_mean cm_future = Ok mean_future →
  np_mean cm_hist = Ok mean_hist →
  mean_hist ≠ 0 →
  Spec.multiplicative_delta cm_hist cm_future = Ok (mean_future / mean_hist).
Proof.
  intros Hf Hh Hnz. unfold Spec.multiplicative_delta. rewrite Hf, Hh. simpl.
  change (s_div (T:=Qc)) with Qc_div. by rewrite Qc_div_Some.
Qed.

Lemma multiplicative_delta_Ok cm_hist cm_future (delta : Qc) :
  Spec.multiplicative_delta cm_hist cm_future = Ok delta ↔
  ∃ mean_future mean_hist,
    np_mean cm_future = Ok mean_future ∧ np_mean cm_hist = Ok mean_hist
    ∧ mean_hist ≠ 0 ∧ delta = mean_future / mean_hist.
Proof.
  split.
  - unfold Spec.multiplicative_delta.
    destruct (np_mean cm_future) as [mf| |e]; simpl; try discriminate.
    destruct (np_mean cm_hist) as [mh| |e]; simpl; try discriminate.
    change (s_div (T:=Qc)) with Qc_div. intros Hd. apply of_option_Ok in Hd.
    destruct (decide (mh = 0)) as [->|Hnz].
    + by rewrite (proj2 (Qc_div_None mf 0)) in Hd.
    + rewrite Qc_div_Some in Hd by done. exists mf, mh. naive_solver.
  - intros (mf & mh & Hf & Hh & Hnz & ->).
    by apply multiplicative_delta_defined.
Qed.

Lemma multiplicative_unfold (m : Distribution Qc) obs cm_hist cm_future :
  Spec.multiplicative m obs cm_hist cm_future
    = (delta ← Spec.multiplicative_delta cm_hist cm_future;
       scaled ← arr_div_scalar cm_future delta;
       Ok ((λ y, y * delta) <$> Spec.standard_qm m obs cm_hist scaled)).
Proof. reflexivity. Qed.

Lemma multiplicative_returns (m : Distribution Qc) obs cm_hist cm_future :
  returns (Spec.multiplicative m obs cm_hist cm_future) ↔
  ∃ delta, Spec.multiplicative_delta cm_hist cm_future = Ok delta ∧ delta ≠ 0.
Proof.
  rewrite multiplicative_unfold. split.
  - intros [r Hr]. apply bind_Ok in Hr as (delta & Hdelta & Hr).
    exists delta. split; [exact Hdelta|]. intros ->.
    apply multiplicative_delta_Ok in Hdelta as (mf & mh & Hf & _).
    assert (cm_future ≠ []) as Hne by (apply np_mean_returns; by exists mf).
    rewrite (arr_div_scalar_zero cm_future Hne) in Hr. discriminate Hr.
  - intros (delta & -> & Hnz).
    rewrite bind_Ok_l, (arr_div_scalar_nonzero cm_future delta Hnz), bind_Ok_l.
    by eexists.
Qed.

(** C4.  With multiplicative detrending, for any model, and under
    [mean(cm_hist) != 0], [apply_location] is
    [standard_qm(cm_future / delta) * delta] with
    [delta = mean(cm_future) / mean(cm_hist)]; without a non-zero mean of
    [cm_hist] the division by zero is neither caught nor special-cased: the
    call raises nothing and has no defined result. *)
Theorem multiplicative_detrending_formula self obs cm_hist cm_future :
  QuantileMapping.detrending self = "multiplicative" →
  let m := QuantileMapping.distribution self in
  (∀ mean_hist, np_mean cm_hist = Ok mean_hist → mean_hist ≠ 0 →
     QuantileMapping.apply_location self obs cm_hist cm_future
       = (mean_future ← np_mean cm_future;
          let delta := mean_future / mean_hist in
          scaled ← arr_div_scalar cm_future delta;
          Ok ((λ y, y * delta) <$> Spec.standard_qm m obs cm_hist scaled)))
  ∧ (∀ mean_future mean_hist,
       np_mean cm_future = Ok mean_future → np_mean cm_hist = Ok mean_hist →
       mean_hist ≠ 0 → mean_future ≠ 0 →
       let delta := mean_future / mean_hist in
       QuantileMapping.apply_location self obs cm_hist cm_future
         = Ok ((λ y, y * delta) <$>
                 ppf m (cdf m ((λ x, x / delta) <$> cm_future) (fit m cm_hist))
                       (fit m obs)))
  ∧ ((∀ mean_hist, np_mean cm_hist = Ok mean_hist → mean_hist = 0) →
       QuantileMapping.apply_location self obs cm_hist cm_future = Undefined).
Proof.
  intros Hmode m.
  rewrite (multiplicative_detrending_spec self obs cm_hist cm_future Hmode).
  fold m. rewrite multiplicative_unfold. split; [|split].
  - intros mh Hh Hnz.
    destruct (np_mean cm_future) as [mf| |e] eqn:Hf.
    + by rewrite (multiplicative_delta_defined _ _ mf mh Hf Hh Hnz), !bind_Ok_l.
    + unfold Spec.multiplicative_delta. by rewrite Hf.
    + unfold Spec.multiplicative_delta. by rewrite Hf.
  - intros mf mh Hf Hh Hnz Hfz delta.
    rewrite (multiplicative_delta_defined _ _ mf mh Hf Hh Hnz), bind_Ok_l.
    assert (delta ≠ 0) as Hd.
    { intros Hd. by apply Hfz, (Qc_div_eq_zero mf mh). }
    fold delta. by rewrite (arr_div_scalar_nonzero cm_future delta Hd), bind_Ok_l.
  - intros Hzero. unfold Spec.multiplicative_delta.
    destruct (np_mean cm_future) as [mf| |e] eqn:Hf; [|done|].
    + destruct (np_mean cm_hist) as [mh| |e] eqn:Hh; [|done|].
      * rewrite (Hzero mh eq_refl), !bind_Ok_l.
        change (s_div (T:=Qc)) with Qc_div.
        by rewrite (proj2 (Qc_div_None mf 0)).
      * by destruct (np_mean_not_raise cm_hist e).
    + by destruct (np_mean_not_raise cm_future e).
Qed.

(** C9.  In the multiplicative branch [cm_future] is divided by
    [delta = mean(cm_future) / mean(cm_hist)]: when [mean(cm_future) = 0],
    also with [mean(cm_hist) != 0], [delta] is zero, the division of
    [cm_future] by it is a division by zero and the call has no defined
    result.  The branch returns exactly when both means are defined and
    non-zero, that is when [delta] is defined and non-zero. *)
Theorem multiplicative_needs_nonzero_future_mean self obs cm_hist cm_future :
  QuantileMapping.detrending self = "multiplicative" →
  (∀ mean_hist,
     np_mean cm_hist = Ok mean_hist → mean_hist ≠ 0 → np_mean cm_future = Ok 0 →
     Spec.multiplicative_delta cm_hist cm_future = Ok 0
     ∧ arr_div_scalar cm_future 0 = Undefined
     ∧ QuantileMapping.apply_location self obs cm_hist cm_future = Undefined)
  ∧ (returns (QuantileMapping.apply_location self obs cm_hist cm_future) ↔
     ∃ mean_future mean_hist,
       np_mean cm_future = Ok mean_future ∧ np_mean cm_hist = Ok mean_hist
       ∧ mean_future ≠ 0 ∧ mean_hist ≠ 0)
  ∧ (returns (QuantileMapping.apply_location self obs cm_hist cm_future) ↔
     ∃ delta, Spec.multiplicative_delta cm_hist cm_future = Ok delta ∧ delta ≠ 0).
Proof.
  intros Hmode.
  rewrite (multiplicative_detrending_spec self obs cm_hist cm_future Hmode).
  split; [|split].
  - intros mh Hh Hnz Hf.
    assert (cm_future ≠ []) as Hne by (apply np_mean_returns; by exists 0).
    pose proof (multiplicative_delta_defined _ _ 0 mh Hf Hh Hnz) as Hdelta.
    rewrite Qc_div_zero_l in Hdelta.
    pose proof (arr_div_scalar_zero cm_future Hne) as Hdiv.
    split; [exact Hdelta|]. split; [exact Hdiv|].
    by rewrite multiplicative_unfold, Hdelta, bind_Ok_l, Hdiv.
  - rewrite multiplicative_returns. split.
    + intros (delta & Hdelta & Hd).
      apply multiplicative_delta_Ok in Hdelta as (mf & mh & Hf & Hh & Hnz & ->).
      exists mf, mh. repeat split; try done.
      intros ->. by rewrite Qc_div_zero_l in Hd.
    + intros (mf & mh & Hf & Hh & Hfz & Hnz). exists (mf / mh). split.
      * by apply multiplicative_delta_defined.
      * intros Hd. by apply Hfz, (Qc_div_eq_zero mf mh).
  - apply multiplicative_returns.
Qed.

End multiplicative.

(** ** ECDFM with the historical period equal to the future one *)

Section sigmoid_facts.
Local Open Scope Qc_scope.

Lemma qc_half : qc 1 2 = 1 / 2.
Proof. by apply Qc_is_canon. Qed.

Lemma Qc_one_pos : 0 < 1.
Proof. by apply Qclt_alt. Qed.

Lemma Qc_two_pos : 0 < 2.
Proof. by apply Qclt_alt. Qed.

Lemma Qc_pos_nonzero (x : Qc) : 0 < x → x ≠ 0.
Proof. intros Hx ->. by apply Qclt_alt in Hx. Qed.

Lemma Qc_neg_flip (y : Qc) : y < 0 → 0 < - y.
Proof.
  intros Hy. apply Qclt_minus_iff in Hy. by rewrite Qcplus_0_l in Hy.
Qed.

Lemma sigmoid_upper_half (y : Qc) : 0 <= y → qc 1 2 <= sigmoid y.
Proof.
  intros Hy.
  assert (0 < 1 + y) as Hpos by (apply Qcplus_pos_nonneg; [apply Qc_one_pos|done]).
  pose proof (Qc_pos_nonzero _ Hpos) as Hnz.
  unfold sigmoid. rewrite (proj2 (Qc_leb_le 0 y) Hy), qc_half.
  apply Qcle_minus_iff.
  replace (1 - 1 / (2 * (1 + y)) + - (1 / 2)) with (y * / (2 * (1 + y)))
    by (field; done).
  apply Qcmult_nonneg_nonneg; [done|].
  apply Qclt_le_weak, Qcinv_pos, Qcmult_pos_pos; [apply Qc_two_pos|done].
Qed.

Lemma sigmoid_lower_half (y : Qc) : y < 0 → sigmoid y < qc 1 2.
Proof.
  intros Hy. pose proof (Qc_neg_flip y Hy) as Hneg.
  assert (0 < 1 - y) as Hpos by (apply Qcplus_pos_pos; [apply Qc_one_pos|done]).
  pose proof (Qc_pos_nonzero _ Hpos) as Hnz.
  unfold sigmoid. rewrite (proj2 (Qc_leb_gt 0 y) Hy), qc_half.
  apply Qclt_minus_iff.
  replace (1 / 2 + - (1 / (2 * (1 - y)))) with (- y * / (2 * (1 - y)))
    by (field; done).
  apply Qcmult_pos_pos; [done|].
  apply Qcinv_pos, Qcmult_pos_pos; [apply Qc_two_pos|done].
Qed.

Lemma sigmoid_inv_sigmoid (y : Qc) : sigmoid_inv (sigmoid y) = y.
Proof.
  unfold sigmoid_inv. destruct (Qc_leb 0 y) eqn:Hy.
  - apply Qc_leb_le in Hy.
    rewrite (proj2 (Qc_leb_le _ _) (sigmoid_upper_half y Hy)).
    assert (0 < 1 + y) as Hpos
      by (apply Qcplus_pos_nonneg; [apply Qc_one_pos|done]).
    pose proof (Qc_pos_nonzero _ Hpos) as Hnz.
    unfold sigmoid. rewrite (proj2 (Qc_leb_le 0 y) Hy). field.
    repeat split; [done|qc_closed_nonzero|].
    intros Hbad. ring_simplify in Hbad. revert Hbad. qc_closed_nonzero.
  - apply Qc_leb_gt in Hy.
    rewrite (proj2 (Qc_leb_gt _ _) (sigmoid_lower_half y Hy)).
    pose proof (Qc_neg_flip y Hy) as Hneg.
    assert (0 < 1 - y) as Hpos by (apply Qcplus_pos_pos; [apply Qc_one_pos|done]).
    pose proof (Qc_pos_nonzero _ Hpos) as Hnz.
    unfold sigmoid. rewrite (proj2 (Qc_leb_gt 0 y) Hy). field. done.
Qed.

Lemma sigmoid_model_shape : ShapePreserving sigmoid_model.
Proof. split; intros x p; simpl; by rewrite length_fmap. Qed.

Lemma sigmoid_model_inverts : inverts sigmoid_model.
Proof.
  intros x p. simpl. rewrite <- list_fmap_compose.
  rewrite <- (list_fmap_id x) at 2. apply list_fmap_ext.
  intros i v _. simpl. rewrite sigmoid_inv_sigmoid. ring.
Qed.

End sigmoid_facts.

Section equal_periods.
Local Open Scope Qc_scope.
Context `{Utils Qc}.

Lemma Qc_list_eq (l k : list Qc) : this <$> l = this <$> k → l = k.
Proof.
  revert k. induction l as [|x l IH]; intros [|y k] Heq; try done.
  simpl in Heq. injection Heq as Hxy Hlk.
  f_equal; [by apply Qc_decomp|by apply IH].
Qed.

Lemma clip_inside (threshold c : Qc) :
  threshold <= c → c <= 1 - threshold → Spec.clip threshold c = c.
Proof.
  intros Hlo Hhi. unfold Spec.clip. simpl.
  rewrite (proj2 (Qc_leb_le c (1 - threshold)) Hhi).
  destruct (Qc_leb c threshold) eqn:Hc; [|done].
  apply Qc_leb_le in Hc. by apply Qcle_antisym.
Qed.

(** The clipper lands in [threshold, 1 - threshold] as soon as that interval
    is not empty, that is for a threshold of at most one half. *)
Lemma clip_range (threshold v : Qc) :
  threshold <= 1 - threshold →
  threshold <= Spec.clip threshold v ∧ Spec.clip threshold v <= 1 - threshold.
Proof.
  intros Hthr. unfold Spec.clip. simpl.
  destruct (Qc_leb v (1 - threshold)) eqn:Hv.
  - destruct (Qc_leb v threshold) eqn:Hc.
    + split; [apply Qcle_refl|done].
    + apply Qc_leb_gt in Hc. apply Qc_leb_le in Hv.
      split; [by apply Qclt_le_weak|done].
  - destruct (Qc_leb (1 - threshold) threshold) eqn:Hc.
    + split; [apply Qcle_refl|done].
    + apply Qc_leb_gt in Hc. split; [by apply Qclt_le_weak|apply Qcle_refl].
Qed.

Lemma add_sub_cancel_iff (a b x : list Qc) :
  length a = length x → length b = length x →
  zip_with Qcminus (zip_with Qcplus x a) b = a ↔ b = x.
Proof.
  revert b x. induction a as [|u a IH]; intros [|w b] [|v x] Ha Hb; try done.
  simpl in *. split.
  - intros Heq. injection Heq as Hhead Htail. f_equal.
    + assert (w = v + u - (v + u - w)) as -> by ring. rewrite Hhead. ring.
    + apply (IH b x); [lia..|done].
  - intros Heq. injection Heq as -> ->. f_equal; [ring|].
    apply (IH x x); [lia..|done].
Qed.

(** C5, as the code has it, in exact arithmetic.  For a model that returns
    one value per input value, ECDFM with [cm_hist] equal to [cm_future]
    returns [ppf(q, params_obs)] if and only if [ppf(q, params_hist)] is
    [cm_future], the two terms then cancelling.  That is so when the PPF of
    the model undoes its CDF and no CDF value of [cm_future] under its own
    fit lies outside [cdf_threshold, 1 - cdf_threshold]: the clipper then
    leaves [q] equal to that CDF. *)
Theorem ecdfm_equal_periods_direct_mapping (self : ECDFM.t Qc)
    (obs cm_future : list Qc) :
  let m := ECDFM.distribution self in
  let threshold := ECDFM.cdf_threshold self in
  let q := Spec.quantile m threshold cm_future in
  ShapePreserving m →
  (ECDFM._apply_on_within_year_window self obs cm_future cm_future
     = Ok (ppf m q (fit m obs))
   ↔ ppf m q (fit m cm_future) = cm_future)
  ∧ (inverts m →
     Forall (λ c, threshold <= c ∧ c <= 1 - threshold)
            (cdf m cm_future (fit m cm_future)) →
     q = cdf m cm_future (fit m cm_future)
     ∧ ECDFM._apply_on_within_year_window self obs cm_future cm_future
       = Ok (ppf m q (fit m obs))).
Proof.
  intros m threshold q [Hcdf Hppf].
  assert (∀ p, length (ppf m q p) = length cm_future) as Hlen.
  { intros p. unfold q, Spec.quantile. by rewrite Hppf, length_fmap, Hcdf. }
  assert (ECDFM._apply_on_within_year_window self obs cm_future cm_future
          = Ok (zip_with Qcminus
                  (zip_with Qcplus cm_future (ppf m q (fit m obs)))
                  (ppf m q (fit m cm_future)))) as Hcore.
  { rewrite ecdfm_window_spec by (fold m threshold q; apply Hlen). done. }
  assert (ECDFM._apply_on_within_year_window self obs cm_future cm_future
            = Ok (ppf m q (fit m obs))
          ↔ ppf m q (fit m cm_future) = cm_future) as Hiff.
  { rewrite Hcore. rewrite <- (add_sub_cancel_iff (ppf m q (fit m obs))) by done.
    split; [by intros [= ->]|by intros ->]. }
  split; [exact Hiff|].
  intros Hinv Hin.
  assert (q = cdf m cm_future (fit m cm_future)) as Hq.
  { unfold q, Spec.quantile.
    rewrite <- (list_fmap_id (cdf m cm_future (fit m cm_future))) at 2.
    apply Forall_fmap_ext_1. eapply Forall_impl; [exact Hin|].
    intros c [Hlo Hhi]. by apply clip_inside. }
  split; [exact Hq|].
  apply Hiff. rewrite Hq. apply Hinv.
Qed.

End equal_periods.

(** ** Shapes *)

Section masks.

Lemma unique_mask_from_length (seen x : list nat) :
  length (unique_mask_from seen x) = length x.
Proof.
  revert seen. induction x as [|i x IH]; intros seen; simpl; [done|].
  by rewrite IH.
Qed.

Lemma window_mask_length (window target seen : list nat) :
  length (logical_and (in1d window target) (unique_mask_from seen window))
    = length window.
Proof.
  unfold logical_and, in1d.
  rewrite length_zip_with, length_fmap, unique_mask_from_length. lia.
Qed.

Lemma compress_length_same {A B} (mask : list bool) (a : list A) (b : list B) :
  length a = length b → length (compress mask a) = length (compress mask b).
Proof.
  revert a b. induction mask as [|c mask IH]; intros [|x a] [|y b] Hlen;
    simpl in *; try done.
  destruct c; simpl; rewrite (IH a b) by lia; done.
Qed.

(** The indices the mask keeps: each index of the window that is a target
    and was not seen before, once. *)
Lemma window_mask_keeps (target window seen : list nat) :
  let kept :=
    compress (logical_and (in1d window target) (unique_mask_from seen window))
             window in
  NoDup kept ∧ ∀ i, i ∈ kept ↔ i ∈ window ∧ i ∈ target ∧ i ∉ seen.
Proof.
  revert seen. induction window as [|j window IH]; intros seen; simpl.
  - split; [constructor|]. intros i. split; [by intros ?%elem_of_nil|].
    by intros [?%elem_of_nil _].
  - destruct (IH (j :: seen)) as [Hnodup Hkept]. simpl in *.
    destruct (bool_decide (j ∈ target)) eqn:Htarget;
      destruct (bool_decide (j ∉ seen)) eqn:Hseen; simpl.
    + apply bool_decide_eq_true_1 in Htarget, Hseen. split.
      * apply NoDup_cons. split; [|done].
        rewrite Hkept. intros (_ & _ & Hj). apply Hj. by left.
      * intros i. rewrite !elem_of_cons, Hkept, not_elem_of_cons.
        split; [intros [->|(? & ? & ? & ?)]; tauto|].
        intros ([->|?] & ? & ?); [by left|].
        destruct (decide (i = j)) as [->|?]; [by left|right; tauto].
    + apply bool_decide_eq_false_1 in Hseen. split; [done|].
      intros i. rewrite elem_of_cons, Hkept, not_elem_of_cons.
      split; [tauto|]. intros ([->|?] & ? & ?); [contradiction|].
      destruct (decide (i = j)) as [->|?]; [contradiction|tauto].
    + apply bool_decide_eq_false_1 in Htarget. split; [done|].
      intros i. rewrite elem_of_cons, Hkept, not_elem_of_cons.
      split; [tauto|]. intros ([->|?] & ? & ?); [contradiction|].
      destruct (decide (i = j)) as [->|?]; [contradiction|tauto].
    + apply bool_decide_eq_false_1 in Htarget. split; [done|].
      intros i. rewrite elem_of_cons, Hkept, not_elem_of_cons.
      split; [tauto|]. intros ([->|?] & ? & ?); [contradiction|].
      destruct (decide (i = j)) as [->|?]; [contradiction|tauto].
Qed.

(** With distinct targets inside the window, the mask keeps as many values
    as there are targets. *)
Lemma window_mask_count {A} (target window : list nat) (vals : list A) :
  NoDup target →
  Forall (λ i, i ∈ window) target →
  length vals = length window →
  length (compress (logical_and (in1d window target)
                                (get_mask_for_unique_subarray window)) vals)
    = length target.
Proof.
  intros Hnodup Hsub Hlen. unfold get_mask_for_unique_subarray.
  rewrite (compress_length_same _ vals window Hlen).
  destruct (window_mask_keeps target window []) as [Hkept_nodup Hkept].
  apply Permutation_length, NoDup_Permutation; [done..|].
  intros i. rewrite Hkept. rewrite Forall_forall in Hsub.
  split; [tauto|]. intros Hi. split; [by apply Hsub|]. split; [done|].
  apply not_elem_of_nil.
Qed.

End masks.

Section shapes.
Context {T : Type} `{Scalar T} `{Utils T}.

Lemma take_indices_in_range {A} (a : list A) (idx : list nat) :
  Forall (λ i, i < length a)%nat idx →
  ∃ r, take_indices a idx = Ok r ∧ length r = length idx.
Proof.
  intros Hidx. unfold take_indices.
  destruct (mapM (λ i, a !! i) idx) as [r|] eqn:Hr.
  - exists r. split; [done|]. symmetry. exact (length_mapM _ _ _ Hr).
  - apply mapM_None in Hr. apply Exists_exists in Hr as (i & Hi & Hnone).
    rewrite Forall_forall in Hidx. apply lookup_ge_None in Hnone.
    specialize (Hidx i Hi). lia.
Qed.

Lemma write_all_length {A} (out : list A) (idx : list nat) (vals : list A) :
  length (write_all out idx vals) = length out.
Proof.
  unfold write_all. revert out. induction (zip idx vals) as [|iv l IH];
    intros out; simpl; [done|].
  by rewrite IH, length_insert.
Qed.

Lemma assign_indices_length {A} (out : list A) (idx : list nat) (vals r : list A) :
  assign_indices out idx vals = Ok r → length r = length out.
Proof.
  unfold assign_indices. case_bool_decide.
  - case_bool_decide; [|discriminate]. intros [= <-]. apply write_all_length.
  - destruct vals as [|v [|? ?]]; try discriminate.
    case_bool_decide; [|discriminate]. intros [= <-]. apply write_all_length.
Qed.

Lemma assign_indices_same_shape {A} (out : list A) (idx : list nat) (vals : list A) :
  Forall (λ i, i < length out)%nat idx →
  length vals = length idx →
  assign_indices out idx vals = Ok (write_all out idx vals).
Proof.
  intros Hidx Hlen. unfold assign_indices.
  by rewrite !bool_decide_eq_true_2.
Qed.

Lemma ecdfm_window_shaped (self : ECDFM.t T) (obs cm_hist cm_future : list T) :
  ShapePreserving (ECDFM.distribution self) →
  ∃ out, ECDFM._apply_on_within_year_window self obs cm_hist cm_future = Ok out
         ∧ length out = length cm_future.
Proof.
  intros [Hcdf Hppf].
  assert (∀ p, length (ppf (ECDFM.distribution self)
                         (Spec.quantile (ECDFM.distribution self)
                            (ECDFM.cdf_threshold self) cm_future) p)
               = length cm_future) as Hlen.
  { intros p. unfold Spec.quantile. by rewrite Hppf, length_fmap, Hcdf. }
  eexists. split; [by apply ecdfm_window_spec|].
  unfold Spec.ecdfm_window. rewrite !length_zip_with, !Hlen. lia.
Qed.

Lemma ecdfm_window_length (self : ECDFM.t T) (obs cm_hist cm_future out : list T) :
  ShapePreserving (ECDFM.distribution self) →
  ECDFM._apply_on_within_year_window self obs cm_hist cm_future = Ok out →
  length out = length cm_future.
Proof.
  intros Hshape Hout.
  destruct (ecdfm_window_shaped self obs cm_hist cm_future Hshape)
    as (out' & Hout' & Hlen).
  rewrite Hout in Hout'. by injection Hout' as ->.
Qed.

Lemma quantile_mapping_length (self : QuantileMapping.t T)
    (obs cm_hist cm_future out : list T) :
  ShapePreserving (QuantileMapping.distribution self) →
  QuantileMapping.apply_location self obs cm_hist cm_future = Ok out →
  length out = length cm_future.
Proof.
  intros [Hcdf Hppf]. unfold QuantileMapping.apply_location.
  assert (∀ x a b, length (QuantileMapping._standard_qm self x a b) = length x)
    as Hqm.
  { intros x a b. unfold QuantileMapping._standard_qm. by rewrite Hppf, Hcdf. }
  repeat case_bool_decide.
  - intros Hout. apply bind_Ok in Hout as (mf & _ & Hout).
    apply bind_Ok in Hout as (mh & _ & Hout). injection Hout as <-.
    unfold arr_add_scalar, arr_sub_scalar. by rewrite length_fmap, Hqm, length_fmap.
  - intros Hout. apply bind_Ok in Hout as (mf & _ & Hout).
    apply bind_Ok in Hout as (mh & _ & Hout).
    apply bind_Ok in Hout as (delta & _ & Hout).
    apply bind_Ok in Hout as (scaled & Hscaled & Hout). injection Hout as <-.
    unfold arr_mul_scalar. rewrite length_fmap, Hqm.
    by apply arr_div_scalar_length in Hscaled.
  - intros [= <-]. apply Hqm.
  - discriminate.
Qed.

Lemma quantile_mapping_returns (self : QuantileMapping.t T)
    (obs cm_hist cm_future : list T) :
  detrending_defined self cm_hist cm_future →
  returns (QuantileMapping.apply_location self obs cm_hist cm_future).
Proof.
  unfold detrending_defined, QuantileMapping.apply_location.
  repeat case_bool_decide.
  - unfold Spec.additive_delta. intros [delta Hdelta].
    apply bind_Ok in Hdelta as (mf & -> & Hdelta).
    apply bind_Ok in Hdelta as (mh & -> & _). by eexists.
  - unfold Spec.multiplicative_delta. intros (delta & Hdelta & [scaled Hscaled]).
    apply bind_Ok in Hdelta as (mf & -> & Hdelta).
    apply bind_Ok in Hdelta as (mh & -> & Hdelta).
    rewrite !bind_Ok_l, Hdelta, bind_Ok_l, Hscaled. by eexists.
  - intros _. by eexists.
  - done.
Qed.

Lemma correct_window_length (self : ECDFM.t T) (rw : RunningWindowOverDaysOfYear)
    (obs cm_hist cm_future : list T) (d_obs d_cm_hist d_cm_future : list Z)
    (out out' : list T) (yielded : Z * list nat) :
  ECDFM.correct_window self rw obs cm_hist cm_future d_obs d_cm_hist d_cm_future
    out yielded = Ok out' →
  length out' = length out.
Proof.
  unfold ECDFM.correct_window. intros Hstep.
  apply bind_Ok in Hstep as (obs_w & _ & Hstep).
  apply bind_Ok in Hstep as (cm_hist_w & _ & Hstep).
  apply bind_Ok in Hstep as (cm_future_w & _ & Hstep).
  apply bind_Ok in Hstep as (corrected & _ & Hstep).
  apply bind_Ok in Hstep as (kept & _ & Hstep).
  by apply assign_indices_length in Hstep.
Qed.

Lemma correct_windows_length (step : list T → Z * list nat → outcome (list T))
    (windows : list (Z * list nat)) (out out' : list T) :
  (∀ o w o', step o w = Ok o' → length o' = length o) →
  ECDFM.correct_windows step out windows = Ok out' →
  length out' = length out.
Proof.
  intros Hstep. revert out. induction windows as [|w windows IH];
    intros out; simpl.
  - by intros [= <-].
  - intros Hrun. apply bind_Ok in Hrun as (o & Ho & Hrun).
    rewrite (IH o Hrun). by apply (Hstep out w).
Qed.

Lemma correct_window_valid (self : ECDFM.t T) (rw : RunningWindowOverDaysOfYear)
    (obs cm_hist cm_future : list T) (t_obs t_cm_hist t_cm_future : list time)
    (out : list T) (yielded : Z * list nat) :
  ShapePreserving (ECDFM.distribution self) →
  length out = length cm_future →
  window_valid rw obs cm_hist cm_future t_obs t_cm_hist t_cm_future yielded →
  returns (ECDFM.correct_window self rw obs cm_hist cm_future
             (day_of_year t_obs) (day_of_year t_cm_hist) (day_of_year t_cm_future)
             out yielded).
Proof.
  intros Hshape Hout (Hobs & Hhist & Hfuture & Hnodup & Hsub).
  unfold ECDFM.correct_window.
  destruct (take_indices_in_range obs _ Hobs) as (obs_w & -> & _).
  destruct (take_indices_in_range cm_hist _ Hhist) as (cm_hist_w & -> & _).
  destruct (take_indices_in_range cm_future _ Hfuture) as (cm_future_w & -> & Hlen).
  rewrite !bind_Ok_l.
  set (window := get_indices_vals_in_window rw (day_of_year t_cm_future) yielded.1)
    in *.
  destruct (ecdfm_window_shaped self obs_w cm_hist_w cm_future_w Hshape)
    as (vals & -> & Hvals).
  rewrite Hlen in Hvals. rewrite bind_Ok_l.
  unfold select_mask, get_mask_for_unique_subarray.
  rewrite bool_decide_eq_true_2 by (by rewrite window_mask_length).
  rewrite bind_Ok_l, assign_indices_same_shape; [by eexists| |].
  - rewrite Forall_forall in Hsub, Hfuture. apply Forall_forall. intros i Hi.
    rewrite Hout. apply Hfuture, Hsub, Hi.
  - by apply window_mask_count.
Qed.

Lemma correct_windows_valid (self : ECDFM.t T) (rw : RunningWindowOverDaysOfYear)
    (obs cm_hist cm_future : list T) (t_obs t_cm_hist t_cm_future : list time)
    (windows : list (Z * list nat)) (out : list T) :
  ShapePreserving (ECDFM.distribution self) →
  length out = length cm_future →
  Forall (window_valid rw obs cm_hist cm_future t_obs t_cm_hist t_cm_future)
         windows →
  returns (ECDFM.correct_windows
             (ECDFM.correct_window self rw obs cm_hist cm_future
                (day_of_year t_obs) (day_of_year t_cm_hist)
                (day_of_year t_cm_future))
             out windows).
Proof.
  intros Hshape Hout Hvalid. revert out Hout.
  induction Hvalid as [|w windows Hw _ IH]; intros out Hout; simpl.
  - by eexists.
  - destruct (correct_window_valid self rw obs cm_hist cm_future
                t_obs t_cm_hist t_cm_future out w Hshape Hout Hw) as [o Ho].
    rewrite Ho, bind_Ok_l. apply IH.
    rewrite <- Hout. by apply correct_window_length in Ho.
Qed.

Lemma empty_like_length (a : list T) : length (empty_like a) = length a.
Proof. unfold empty_like. by rewrite length_fmap, length_seq. Qed.

(** The loop writes at target indices only: a cell that no yielded pair
    targets still holds what [np.empty_like] found there. *)
Lemma write_all_untouched {A} (out : list A) (idx : list nat) (vals : list A)
    (i : nat) :
  i ∉ idx → write_all out idx vals !! i = out !! i.
Proof.
  unfold write_all. revert out vals.
  induction idx as [|j idx IH]; intros out vals Hi; [done|].
  destruct vals as [|v vals]; [done|]. simpl.
  apply not_elem_of_cons in Hi as [Hij Hi].
  rewrite IH by done. by apply list_lookup_insert_ne.
Qed.

Lemma assign_indices_untouched {A} (out : list A) (idx : list nat)
    (vals r : list A) (i : nat) :
  i ∉ idx → assign_indices out idx vals = Ok r → r !! i = out !! i.
Proof.
  intros Hi. unfold assign_indices. case_bool_decide.
  - case_bool_decide; [|discriminate]. intros [= <-].
    by apply write_all_untouched.
  - destruct vals as [|v [|? ?]]; try discriminate.
    case_bool_decide; [|discriminate]. intros [= <-].
    by apply write_all_untouched.
Qed.

Lemma correct_windows_untargeted (self : ECDFM.t T)
    (rw : RunningWindowOverDaysOfYear) (obs cm_hist cm_future : list T)
    (d_obs d_cm_hist d_cm_future : list Z)
    (windows : list (Z * list nat)) (out out' : list T) (i : nat) :
  Forall (λ yielded, i ∉ yielded.2) windows →
  ECDFM.correct_windows
    (ECDFM.correct_window self rw obs cm_hist cm_future
       d_obs d_cm_hist d_cm_future) out windows = Ok out' →
  out' !! i = out !! i.
Proof.
  intros Hwindows. revert out.
  induction Hwindows as [|w windows Hw _ IH]; intros out; simpl.
  - by intros [= <-].
  - intros Hrun. apply bind_Ok in Hrun as (o & Ho & Hrun).
    rewrite (IH o Hrun). unfold ECDFM.correct_window in Ho.
    apply bind_Ok in Ho as (obs_w & _ & Ho).
    apply bind_Ok in Ho as (cm_hist_w & _ & Ho).
    apply bind_Ok in Ho as (cm_future_w & _ & Ho).
    apply bind_Ok in Ho as (corrected & _ & Ho).
    apply bind_Ok in Ho as (kept & _ & Ho).
    by apply (assign_indices_untouched out w.2 kept).
Qed.

End shapes.

Section shape_of_the_result.
Context {T : Type} `{Scalar T} `{Utils T}.

(** C6.  On valid inputs [apply_location] of either debiaser returns an
    array of the length of [cm_future]: QuantileMapping in each of its three
    detrending modes wherever the detrending arithmetic is defined, ECDFM
    without running window always, and ECDFM with running window when the
    time information passes its check and the windows are valid; and no
    call ever returns an array of another length. *)
Theorem apply_location_keeps_shape :
  (∀ (self : QuantileMapping.t T) (obs cm_hist cm_future : list T),
     ShapePreserving (QuantileMapping.distribution self) →
     detrending_defined self cm_hist cm_future →
     ∃ out, QuantileMapping.apply_location self obs cm_hist cm_future = Ok out
            ∧ length out = length cm_future)
  ∧ (∀ (self : ECDFM.t T) (obs cm_hist cm_future : list T)
       (time_obs time_cm_hist time_cm_future : option (list time)),
     ShapePreserving (ECDFM.distribution self) →
     ECDFM.running_window_mode self = false →
     ∃ out, ECDFM.apply_location self obs cm_hist cm_future
              time_obs time_cm_hist time_cm_future = ([], Ok out)
            ∧ length out = length cm_future)
  ∧ (∀ (self : ECDFM.t T) (rw : RunningWindowOverDaysOfYear)
       (obs cm_hist cm_future : list T)
       (time_obs time_cm_hist time_cm_future : option (list time))
       (warned : list warning) (t_obs t_cm_hist t_cm_future : list time),
     ShapePreserving (ECDFM.distribution self) →
     ECDFM.running_window_mode self = true →
     ECDFM.running_window self = Some rw →
     ECDFM.time_information obs cm_hist cm_future
       time_obs time_cm_hist time_cm_future
       = (warned, (t_obs, t_cm_hist, t_cm_future)) →
     check_time_information_and_raise_error
       obs cm_hist cm_future t_obs t_cm_hist t_cm_future = None →
     windows_valid rw obs cm_hist cm_future t_obs t_cm_hist t_cm_future →
     ∃ out, ECDFM.apply_location self obs cm_hist cm_future
              time_obs time_cm_hist time_cm_future = (warned, Ok out)
            ∧ length out = length cm_future)
  ∧ (∀ (self : QuantileMapping.t T) (obs cm_hist cm_future out : list T),
     ShapePreserving (QuantileMapping.distribution self) →
     QuantileMapping.apply_location self obs cm_hist cm_future = Ok out →
     length out = length cm_future)
  ∧ (∀ (self : ECDFM.t T) (obs cm_hist cm_future : list T)
       (time_obs time_cm_hist time_cm_future : option (list time))
       (warned : list warning) (out : list T),
     ShapePreserving (ECDFM.distribution self) →
     ECDFM.apply_location self obs cm_hist cm_future
       time_obs time_cm_hist time_cm_future = (warned, Ok out) →
     length out = length cm_future).
Proof.
  assert (∀ (self : ECDFM.t T) obs cm_hist cm_future t1 t2 t3 warned out,
            ShapePreserving (ECDFM.distribution self) →
            ECDFM.apply_location self obs cm_hist cm_future t1 t2 t3
              = (warned, Ok out) →
            length out = length cm_future) as Hsafe.
  { intros self obs cm_hist cm_future t1 t2 t3 warned out Hshape.
    unfold ECDFM.apply_location.
    destruct (ECDFM.running_window_mode self).
    - destruct (ECDFM.time_information obs cm_hist cm_future t1 t2 t3)
        as [w [[t_obs t_cm_hist] t_cm_future]].
      destruct (check_time_information_and_raise_error _ _ _ _ _ _);
        [intros [= _ ?]; discriminate|].
      intros [= _ Hrun]. apply bind_Ok in Hrun as (rw & _ & Hrun).
      apply correct_windows_length in Hrun.
      + by rewrite Hrun, empty_like_length.
      + intros o w' o'. apply correct_window_length.
    - intros [= _ Hout]. by eapply ecdfm_window_length. }
  split; [|split; [|split; [|split]]].
  - intros self obs cm_hist cm_future Hshape Hdefined.
    destruct (quantile_mapping_returns self obs cm_hist cm_future Hdefined)
      as [out Hout].
    exists out. split; [done|]. by eapply quantile_mapping_length.
  - intros self obs cm_hist cm_future t1 t2 t3 Hshape Hmode.
    destruct (ecdfm_window_shaped self obs cm_hist cm_future Hshape)
      as (out & Hout & Hlen).
    exists out. split; [|exact Hlen].
    unfold ECDFM.apply_location. by rewrite Hmode, Hout.
  - intros self rw obs cm_hist cm_future t1 t2 t3 warned t_obs t_cm_hist
      t_cm_future Hshape Hmode Hrw Htime Hcheck Hvalid.
    destruct (correct_windows_valid self rw obs cm_hist cm_future
                t_obs t_cm_hist t_cm_future
                (use rw (day_of_year t_cm_future) (year t_cm_future))
                (empty_like cm_future) Hshape (empty_like_length cm_future)
                Hvalid) as [out Hout].
    assert (ECDFM.apply_location self obs cm_hist cm_future t1 t2 t3
            = (warned, Ok out)) as Hrun.
    { unfold ECDFM.apply_location. rewrite Hmode, Htime, Hcheck, Hrw.
      by rewrite bind_Ok_l, Hout. }
    exists out. split; [done|]. by eapply Hsafe.
  - intros self obs cm_hist cm_future out. apply quantile_mapping_length.
  - exact Hsafe.
Qed.

End shape_of_the_result.

(** ** Concrete runs on the rationals *)

Lemma Ok_Qc_eq (o : outcome Qc) (m : Qc) :
  match o with Ok x => this x = this m | _ => False end → o = Ok m.
Proof. destruct o as [x| |e]; try done. intros Hx. f_equal. by apply Qc_decomp. Qed.

Lemma Ok_Qc_list_eq (o : outcome (list Qc)) (l : list Qc) :
  match o with Ok k => show k = show l | _ => False end → o = Ok l.
Proof. destruct o as [k| |e]; try done. intros Hk. f_equal. by apply Qc_list_eq. Qed.

Section runs.
Local Existing Instance sample_utils.
Local Open Scope Qc_scope.

Example init_additive_qm :
  QuantileMapping.init (PyDistribution sigmoid_model) (PyStr "additive")
    = Ok additive_qm.
Proof. reflexivity. Qed.

Example init_ecdfm_windowed :
  ECDFM.init (PyDistribution sigmoid_model) (PyFloat (qc 1 4)) (PyBool true)
    (PyInt 31) (PyInt 10) = Ok ecdfm_windowed.
Proof. reflexivity. Qed.

Example np_mean_cm_future0 : np_mean cm_future0 = Ok (qc 33 8).
Proof. apply Ok_Qc_eq. vm_compute. reflexivity. Qed.

Example np_mean_cm_hist0 : np_mean cm_hist0 = Ok (qc 3 2).
Proof. apply Ok_Qc_eq. vm_compute. reflexivity. Qed.

Example threshold_cdf_vals_run :
  show (threshold_cdf_vals [qc 1 2; qc 0 1; qc 1 1; qc 1 5] (qc 1 4))
    = [1 # 2; 1 # 4; 3 # 4; 1 # 4]%Q.
Proof. vm_compute. reflexivity. Qed.

Example threshold_above_one_half_run :
  show (threshold_cdf_vals [qc 1 2; qc 0 1; qc 1 1] (qc 7 10))
    = [7 # 10; 7 # 10; 7 # 10]%Q.
Proof. vm_compute. reflexivity. Qed.

Example get_mask_for_unique_subarray_run :
  get_mask_for_unique_subarray [3; 1; 3; 2; 1]%nat = [true; true; false; true; false].
Proof. reflexivity. Qed.

Example arr_add_broadcast_run :
  arr_add [qc 1 1; qc 2 1; qc 3 1] [qc 10 1] = Ok [qc 11 1; qc 12 1; qc 13 1]
  ∧ arr_add [qc 1 1; qc 2 1; qc 3 1] [qc 10 1; qc 20 1] = Raise ValueError.
Proof. split; [apply Ok_Qc_list_eq; vm_compute|]; reflexivity. Qed.

Example assign_indices_run :
  assign_indices [0; 0; 0; 0]%nat [1; 3]%nat [7; 8]%nat = Ok [0; 7; 0; 8]%nat
  ∧ assign_indices [0; 0; 0; 0]%nat [1; 3; 1]%nat [7; 8; 9]%nat = Ok [0; 9; 0; 8]%nat
  ∧ assign_indices [0; 0; 0; 0]%nat [1; 4]%nat [7; 8]%nat = Raise IndexError
  ∧ assign_indices [0; 0; 0; 0]%nat [1; 3]%nat [7; 8; 9]%nat = Raise ValueError
  ∧ assign_indices [0; 0; 0; 0]%nat [1; 4]%nat [7; 8; 9]%nat = Raise ValueError
  ∧ assign_indices [0; 0; 0; 0]%nat [1; 4]%nat [7]%nat = Raise IndexError.
Proof. repeat split; reflexivity. Qed.

Example quantile_mapping_multiplicative_run :
  QuantileMapping.apply_location multiplicative_qm
    [qc 1 1; qc 2 1] [qc 1 1; qc 3 1] [qc 2 1; qc 6 1] = Ok [qc 1 1; qc 5 1].
Proof. apply Ok_Qc_list_eq. vm_compute. reflexivity. Qed.

Example ecdfm_whole_period_run :
  ECDFM.apply_location ecdfm_whole_period [qc 0 1] cm_spread cm_spread
    (Some [400%nat]) None None
    = ([], Ok [qc (-10) 1; qc 10 1]).
Proof.
  assert (∀ (w : list warning) (o : outcome (list Qc)) l,
            o = Ok l → (w, o) = (w, Ok l)) as Hpair
    by (by intros w o l ->).
  apply Hpair, Ok_Qc_list_eq. vm_compute. reflexivity.
Qed.

Example ecdfm_windowed_run :
  ECDFM.apply_location ecdfm_windowed obs0 cm_hist0 cm_future0 None None None
    = ([TimeInformationInferred], Ok [qc 65 6; qc 11 6; qc 4 3; qc 35 6]).
Proof.
  assert (∀ (w : list warning) (o : outcome (list Qc)) l,
            o = Ok l → (w, o) = (w, Ok l)) as Hpair
    by (by intros w o l ->).
  apply Hpair, Ok_Qc_list_eq. vm_compute. reflexivity.
Qed.

Example ecdfm_windowed_time_mismatch_run :
  ECDFM.apply_location ecdfm_windowed obs0 cm_hist0 cm_future0
    (Some [0; 1; 2]%nat) (Some [3; 4]%nat) (Some [5; 6; 7]%nat)
    = ([], Raise ValueError).
Proof. reflexivity. Qed.

(** Witness of C1. *)
Lemma ecdfm_window_formula_witness :
  let q := Spec.quantile sigmoid_model (qc 1 4) cm_future0 in
  ECDFM._apply_on_within_year_window ecdfm_whole_period obs0 cm_hist0 cm_future0
    = Ok (zip_with Qcminus
            (zip_with Qcplus cm_future0 (ppf sigmoid_model q (fit sigmoid_model obs0)))
            (ppf sigmoid_model q (fit sigmoid_model cm_hist0))).
Proof.
  exact (proj1 (proj2 (ecdfm_window_formula ecdfm_whole_period
                         obs0 cm_hist0 cm_future0))
           sigmoid_model_shape).
Defined.

(** Witness of C3. *)
Lemma additive_detrending_formula_witness :
  QuantileMapping.detrending additive_qm = "additive"
  ∧ QuantileMapping.apply_location additive_qm obs0 cm_hist0 cm_future0
    = Spec.additive sigmoid_model obs0 cm_hist0 cm_future0.
Proof.
  split; [reflexivity|].
  exact (proj1 (additive_detrending_formula additive_qm obs0 cm_hist0 cm_future0
                  eq_refl)).
Defined.

(** Witness of C4. *)
Lemma multiplicative_detrending_formula_witness :
  let delta := qc 33 8 / qc 3 2 in
  QuantileMapping.apply_location multiplicative_qm obs0 cm_hist0 cm_future0
    = Ok ((λ y, y * delta) <$>
            ppf sigmoid_model
              (cdf sigmoid_model ((λ x, x / delta) <$> cm_future0)
                 (fit sigmoid_model cm_hist0))
              (fit sigmoid_model obs0)).
Proof.
  refine (proj1 (proj2 (multiplicative_detrending_formula multiplicative_qm
                          obs0 cm_hist0 cm_future0 eq_refl))
            (qc 33 8) (qc 3 2) np_mean_cm_future0 np_mean_cm_hist0 _ _);
    qc_closed_nonzero.
Defined.

(** Witness of C9: a future series of mean zero over a historical series of
    mean two. *)
Lemma multiplicative_needs_nonzero_future_mean_witness :
  QuantileMapping.apply_location multiplicative_qm obs0 [qc 1 1; qc 3 1]
    [qc 2 1; qc (-2) 1] = Undefined.
Proof.
  refine (proj2 (proj2 (proj1 (multiplicative_needs_nonzero_future_mean
                                 multiplicative_qm obs0 [qc 1 1; qc 3 1]
                                 [qc 2 1; qc (-2) 1] eq_refl)
                          (qc 2 1) _ _ _))).
  - apply Ok_Qc_eq. vm_compute. reflexivity.
  - qc_closed_nonzero.
  - apply Ok_Qc_eq. vm_compute. reflexivity.
Defined.

(** Witness of C10: no time arrays against time arrays of wrong lengths. *)
Lemma ecdfm_time_ignored_without_window_witness :
  ECDFM.apply_location ecdfm_whole_period obs0 cm_hist0 cm_future0 None None None
    = ECDFM.apply_location ecdfm_whole_period obs0 cm_hist0 cm_future0
        (Some []) (Some [0; 1; 2; 3; 4]%nat) (Some [7]%nat)
  ∧ ECDFM.apply_location ecdfm_whole_period obs0 cm_hist0 cm_future0 None None None
    = ([], ECDFM._apply_on_within_year_window ecdfm_whole_period
             obs0 cm_hist0 cm_future0).
Proof.
  exact (ecdfm_time_ignored_without_window ecdfm_whole_period
           obs0 cm_hist0 cm_future0 None None None
           (Some []) (Some [0; 1; 2; 3; 4]%nat) (Some [7]%nat) eq_refl).
Defined.

End runs.

Section more_runs.
Local Existing Instance sample_utils.
Local Open Scope Qc_scope.

(** Counterexample to C5 as stated: the model's PPF undoes its CDF and keeps
    shapes, [cm_hist] is [cm_future], and yet ECDFM returns [-10; 10] where
    the direct quantile mapping [ppf(q, params_obs)] is [-1; 1], because the
    clipper moved the CDF values 1/22 and 21/22 to 1/4 and 3/4. *)
Lemma ecdfm_equal_periods_clipped_differs :
  inverts sigmoid_model
  ∧ ShapePreserving sigmoid_model
  ∧ show (cdf sigmoid_model cm_spread (fit sigmoid_model cm_spread))
    = [1 # 22; 21 # 22]%Q
  ∧ ECDFM._apply_on_within_year_window ecdfm_whole_period
      [qc 0 1] cm_spread cm_spread = Ok [qc (-10) 1; qc 10 1]
  ∧ show (ppf sigmoid_model
            (Spec.quantile sigmoid_model (ECDFM.cdf_threshold ecdfm_whole_period)
               cm_spread)
            (fit sigmoid_model [qc 0 1])) = [-1 # 1; 1 # 1]%Q
  ∧ ECDFM._apply_on_within_year_window ecdfm_whole_period
      [qc 0 1] cm_spread cm_spread
    ≠ Ok (ppf sigmoid_model
            (Spec.quantile sigmoid_model (ECDFM.cdf_threshold ecdfm_whole_period)
               cm_spread)
            (fit sigmoid_model [qc 0 1])).
Proof.
  assert (ECDFM._apply_on_within_year_window ecdfm_whole_period
            [qc 0 1] cm_spread cm_spread = Ok [qc (-10) 1; qc 10 1]) as Hrun
    by (apply Ok_Qc_list_eq; vm_compute; reflexivity).
  split; [exact sigmoid_model_inverts|]. split; [exact sigmoid_model_shape|].
  split; [vm_compute; reflexivity|]. split; [exact Hrun|].
  split; [vm_compute; reflexivity|].
  rewrite Hrun. intros Heq.
  apply (f_equal (λ o, match o with Ok l => show l | _ => [] end)) in Heq.
  vm_compute in Heq. discriminate Heq.
Qed.

(** Witness of C5 as amended. *)
Lemma ecdfm_equal_periods_direct_mapping_witness :
  ECDFM._apply_on_within_year_window ecdfm_whole_period [qc 0 1] cm_narrow cm_narrow
    = Ok (ppf sigmoid_model
            (Spec.quantile sigmoid_model (qc 1 4) cm_narrow)
            (fit sigmoid_model [qc 0 1])).
Proof.
  refine (proj2 (proj2 (ecdfm_equal_periods_direct_mapping ecdfm_whole_period
                          [qc 0 1] cm_narrow sigmoid_model_shape)
                   sigmoid_model_inverts _)).
  repeat constructor; apply Qcle_alt; vm_compute; discriminate.
Defined.

Lemma windows_valid_run :
  windows_valid (31%Z, 10%Z) obs0 cm_hist0 cm_future0
    [0; 1; 2]%nat [0; 1]%nat [0; 1; 2; 3]%nat.
Proof.
  unfold windows_valid. apply Forall_forall. intros w Hw.
  unfold window_valid.
  revert w Hw. apply Forall_forall. compute_done.
Defined.

(** Witness of C6: the three modes of QuantileMapping, ECDFM on the whole
    period and ECDFM with a running window of 31 days and a step of 10. *)
Lemma apply_location_keeps_shape_witness :
  (∃ out, QuantileMapping.apply_location additive_qm obs0 cm_hist0 cm_future0
          = Ok out ∧ length out = 4%nat)
  ∧ (∃ out, QuantileMapping.apply_location multiplicative_qm obs0 cm_hist0 cm_future0
            = Ok out ∧ length out = 4%nat)
  ∧ (∃ out, QuantileMapping.apply_location plain_qm obs0 cm_hist0 cm_future0
            = Ok out ∧ length out = 4%nat)
  ∧ (∃ out, ECDFM.apply_location ecdfm_whole_period obs0 cm_hist0 cm_future0
              None None None = ([], Ok out) ∧ length out = 4%nat)
  ∧ (∃ out, ECDFM.apply_location ecdfm_windowed obs0 cm_hist0 cm_future0
              None None None = ([TimeInformationInferred], Ok out)
            ∧ length out = 4%nat).
Proof.
  destruct (@apply_location_keeps_shape Qc Qc_scalar sample_utils)
    as (Hqm & Hwhole & Hwindowed & _ & _).
  split; [|split; [|split; [|split]]].
  - apply (Hqm additive_qm obs0 cm_hist0 cm_future0 sigmoid_model_shape).
    change (returns (Spec.additive_delta cm_hist0 cm_future0)).
    unfold Spec.additive_delta.
    rewrite np_mean_cm_future0, np_mean_cm_hist0. by eexists.
  - apply (Hqm multiplicative_qm obs0 cm_hist0 cm_future0 sigmoid_model_shape).
    change (∃ delta, Spec.multiplicative_delta cm_hist0 cm_future0 = Ok delta
                     ∧ returns (arr_div_scalar cm_future0 delta)).
    exists (qc 33 8 / qc 3 2). split.
    + apply multiplicative_delta_defined;
        [exact np_mean_cm_future0|exact np_mean_cm_hist0|qc_closed_nonzero].
    + rewrite arr_div_scalar_nonzero; [by eexists|qc_closed_nonzero].
  - apply (Hqm plain_qm obs0 cm_hist0 cm_future0 sigmoid_model_shape).
    reflexivity.
  - apply (Hwhole ecdfm_whole_period obs0 cm_hist0 cm_future0 None None None
             sigmoid_model_shape eq_refl).
  - apply (Hwindowed ecdfm_windowed (31%Z, 10%Z) obs0 cm_hist0 cm_future0
             None None None [TimeInformationInferred]
             [0; 1; 2]%nat [0; 1]%nat [0; 1; 2; 3]%nat
             sigmoid_model_shape eq_refl eq_refl eq_refl eq_refl
             windows_valid_run).
Defined.

(** Witness of C7: an unknown detrending, a window length of zero and a
    step length given as a float. *)
Lemma construction_rejects_bad_configuration_witness :
  raises (QuantileMapping.init (PyDistribution sigmoid_model) (PyStr "linear"))
  ∧ raises (ECDFM.init (PyDistribution sigmoid_model) (PyFloat (qc 1 4))
              (PyBool true) (PyInt 0) (PyInt 31))
  ∧ raises (ECDFM.init (PyDistribution sigmoid_model) (PyFloat (qc 1 4))
              (PyBool true) (PyInt 31) (PyFloat (qc 31 1))).
Proof.
  destruct (@construction_rejects_bad_configuration Qc sample_utils)
    as [Hqm Hecdfm].
  split; [|split].
  - apply (Hqm (PyDistribution sigmoid_model) (PyStr "linear")).
    intros s [= <-]. compute_done.
  - apply (Hecdfm (PyDistribution sigmoid_model) (PyFloat (qc 1 4)) (PyBool true)
             (PyInt 0) (PyInt 31)).
    left. simpl. lia.
  - apply (Hecdfm (PyDistribution sigmoid_model) (PyFloat (qc 1 4)) (PyBool true)
             (PyInt 31) (PyFloat (qc 31 1))).
    right. simpl. tauto.
Defined.

(** Counterexample to C8 as stated: the thresholds 0.7 and -0.1 lie outside
    (0, 0.5) and the constructor returns a debiaser that holds them. *)
Lemma ecdfm_threshold_outside_interval_accepted :
  (¬ (0 < qc 7 10 ∧ qc 7 10 < qc 1 2)
   ∧ ¬ raises (ECDFM.init (PyDistribution sigmoid_model) (PyFloat (qc 7 10))
                 (PyBool false) (PyInt 31) (PyInt 31))
   ∧ ∃ self, ECDFM.init (PyDistribution sigmoid_model) (PyFloat (qc 7 10))
               (PyBool false) (PyInt 31) (PyInt 31) = Ok self
             ∧ ECDFM.cdf_threshold self = qc 7 10)
  ∧ (¬ (0 < qc (-1) 10 ∧ qc (-1) 10 < qc 1 2)
     ∧ ¬ raises (ECDFM.init (PyDistribution sigmoid_model) (PyFloat (qc (-1) 10))
                   (PyBool false) (PyInt 31) (PyInt 31))
     ∧ ∃ self, ECDFM.init (PyDistribution sigmoid_model) (PyFloat (qc (-1) 10))
                 (PyBool false) (PyInt 31) (PyInt 31) = Ok self
               ∧ ECDFM.cdf_threshold self = qc (-1) 10).
Proof.
  split; (split; [|split]).
  - intros [_ Hlt]. apply Qclt_alt in Hlt. vm_compute in Hlt. discriminate Hlt.
  - intros [e He]. discriminate He.
  - eexists. split; reflexivity.
  - intros [Hlt _]. apply Qclt_alt in Hlt. vm_compute in Hlt. discriminate Hlt.
  - intros [e He]. discriminate He.
  - eexists. split; reflexivity.
Qed.

(** Witness of C8 as amended. *)
Lemma ecdfm_threshold_type_checked_only_witness :
  raises (ECDFM.init (PyDistribution sigmoid_model) (PyInt 0)
            (PyBool true) (PyInt 31) (PyInt 31))
  ∧ ECDFM.init (PyDistribution sigmoid_model) (PyFloat (qc 7 10))
      (PyBool true) (PyInt 31) (PyInt 31)
    = Ok {| ECDFM.distribution := sigmoid_model;
            ECDFM.cdf_threshold := qc 7 10;
            ECDFM.running_window_mode := true;
            ECDFM.running_window_length := 31;
            ECDFM.running_window_step_length := 31;
            ECDFM.running_window := Some (31%Z, 31%Z) |}.
Proof.
  destruct (@ecdfm_threshold_type_checked_only Qc sample_utils) as [Htype Hfloat].
  split.
  - apply (Htype (PyDistribution sigmoid_model) (PyInt 0) (PyBool true)
             (PyInt 31) (PyInt 31)).
    discriminate.
  - rewrite (Hfloat sigmoid_model (qc 7 10) true 31%Z 31%Z); [reflexivity|lia..].
Defined.

End more_runs.

(** ** QuantileMapping: what the branches never do *)

Section quantile_mapping_outcomes.
Context {T : Type} `{Scalar T}.

Lemma of_option_not_raise {A} (o : option A) : ¬ raises (of_option o).
Proof. destruct o; intros [e He]; discriminate He. Qed.

Lemma bind_not_raise {A B} (o : outcome A) (k : A → outcome B) :
  ¬ raises o → (∀ a, ¬ raises (k a)) → ¬ raises (o ≫= k).
Proof.
  intros Ho Hk. destruct o as [a| |e]; simpl.
  - apply Hk.
  - intros [e He]. discriminate He.
  - destruct Ho. by exists e.
Qed.

Lemma Ok_not_raise {A} (a : A) : ¬ raises (Ok a).
Proof. intros [e He]. discriminate He. Qed.

Lemma init_detrending (distribution detrending : pyval T)
    (self : QuantileMapping.t T) :
  QuantileMapping.init distribution detrending = Ok self →
  distribution = PyDistribution (QuantileMapping.distribution self)
  ∧ detrending = PyStr (QuantileMapping.detrending self)
  ∧ QuantileMapping.detrending self ∈ QuantileMapping.detrending_options.
Proof.
  unfold QuantileMapping.init. intros Hinit.
  apply bind_Ok in Hinit as (d & Hd & Hinit).
  apply bind_Ok in Hinit as (s & Hs & Hinit). injection Hinit as <-. simpl.
  destruct distribution; try discriminate Hd. injection Hd as ->.
  destruct detrending as [| | | |s'|]; try discriminate Hs. simpl in Hs.
  case_bool_decide; [|discriminate Hs]. injection Hs as ->. done.
Qed.

(** X1.  The closing [else: raise ValueError] of [apply_location] is dead
    code for every debiaser the constructor returns: on such a debiaser the
    call raises no exception of its own, whatever the series.  A debiaser
    whose [detrending] is none of the three names raises that ValueError on
    every input. *)
Theorem quantile_mapping_value_error_unreachable :
  (∀ (distribution detrending : pyval T) (self : QuantileMapping.t T)
     (obs cm_hist cm_future : list T),
     QuantileMapping.init distribution detrending = Ok self →
     ¬ raises (QuantileMapping.apply_location self obs cm_hist cm_future))
  ∧ (∀ (self : QuantileMapping.t T) (obs cm_hist cm_future : list T),
     QuantileMapping.detrending self ∉ QuantileMapping.detrending_options →
     QuantileMapping.apply_location self obs cm_hist cm_future = Raise ValueError).
Proof.
  split.
  - intros distribution detrending self obs cm_hist cm_future Hinit.
    apply init_detrending in Hinit as (_ & _ & Hin).
    unfold QuantileMapping.apply_location. repeat case_bool_decide.
    + apply bind_not_raise; [apply of_option_not_raise|]. intros mf.
      apply bind_not_raise; [apply of_option_not_raise|]. intros mh.
      apply Ok_not_raise.
    + apply bind_not_raise; [apply of_option_not_raise|]. intros mf.
      apply bind_not_raise; [apply of_option_not_raise|]. intros mh.
      apply bind_not_raise; [apply of_option_not_raise|]. intros delta.
      apply bind_not_raise; [apply of_option_not_raise|]. intros scaled.
      apply Ok_not_raise.
    + apply Ok_not_raise.
    + unfold QuantileMapping.detrending_options in Hin.
      rewrite !elem_of_cons in Hin. destruct Hin as [?|[?|[?|Hnil]]]; try done.
      by apply elem_of_nil in Hnil.
  - intros self obs cm_hist cm_future Hout.
    unfold QuantileMapping.detrending_options in Hout.
    rewrite !not_elem_of_cons in Hout. destruct Hout as (? & ? & ? & _).
    unfold QuantileMapping.apply_location.
    by rewrite !bool_decide_eq_false_2.
Qed.

End quantile_mapping_outcomes.

(** ** QuantileMapping on the rationals: identity and trend *)

Section quantile_mapping_rationals.
Local Open Scope Qc_scope.
Implicit Types (self : QuantileMapping.t Qc) (obs cm_hist cm_future out : list Qc).

Lemma additive_detrending_spec self obs cm_hist cm_future :
  QuantileMapping.detrending self = "additive" →
  QuantileMapping.apply_location self obs cm_hist cm_future
    = Spec.additive (QuantileMapping.distribution self) obs cm_hist cm_future.
Proof.
  intros Hmode. unfold QuantileMapping.apply_location. rewrite Hmode. simpl.
  unfold Spec.additive, Spec.additive_delta.
  destruct (np_mean cm_future) as [mf| |e]; [|reflexivity..].
  destruct (np_mean cm_hist) as [mh| |e]; reflexivity.
Qed.

Lemma additive_Ok (m : Distribution Qc) obs cm_hist cm_future out :
  Spec.additive m obs cm_hist cm_future = Ok out ↔
  ∃ mean_future mean_hist,
    np_mean cm_future = Ok mean_future ∧ np_mean cm_hist = Ok mean_hist
    ∧ out = (λ y, y + (mean_future - mean_hist)) <$>
              Spec.standard_qm m obs cm_hist
                ((λ x, x - (mean_future - mean_hist)) <$> cm_future).
Proof.
  unfold Spec.additive, Spec.additive_delta. split.
  - intros Hout. apply bind_Ok in Hout as (delta & Hdelta & Hout).
    apply bind_Ok in Hdelta as (mf & Hf & Hdelta).
    apply bind_Ok in Hdelta as (mh & Hh & Hdelta).
    injection Hdelta as <-. injection Hout as <-. by exists mf, mh.
  - intros (mf & mh & -> & -> & ->). reflexivity.
Qed.

Lemma foldl_Qcplus_acc (a : Qc) (l : list Qc) :
  foldl Qcplus a l = a + foldl Qcplus 0 l.
Proof.
  revert a. induction l as [|x l IH]; intros a; simpl.
  - ring.
  - rewrite (IH (a + x)), (IH (0 + x)). ring.
Qed.

Lemma np_sum_cons (x : Qc) (l : list Qc) : np_sum (x :: l) = x + np_sum l.
Proof.
  unfold np_sum. simpl. rewrite foldl_Qcplus_acc. ring.
Qed.

Lemma Qc_of_nat_S (n : nat) : s_of_nat (T:=Qc) (S n) = s_of_nat n + 1.
Proof.
  simpl. rewrite Nat2Z.inj_succ, <- Z.add_1_r, Z2Qc_inj_add, Z2Qc_inj_1. done.
Qed.

Lemma np_sum_shift (c : Qc) (l : list Qc) :
  np_sum ((λ x, x + c) <$> l) = np_sum l + s_of_nat (length l) * c.
Proof.
  induction l as [|x l IH].
  - change (np_sum [] = np_sum [] + s_of_nat 0 * c).
    rewrite (proj2 (Qc_of_nat_zero 0) eq_refl). ring.
  - rewrite fmap_cons, !np_sum_cons, IH. cbn [length].
    rewrite Qc_of_nat_S. ring.
Qed.

Lemma np_sum_scale (c : Qc) (l : list Qc) :
  np_sum ((λ x, x * c) <$> l) = np_sum l * c.
Proof.
  induction l as [|x l IH].
  - change (np_sum [] = np_sum [] * c). change (np_sum (T:=Qc) []) with 0. ring.
  - rewrite fmap_cons, !np_sum_cons, IH. ring.
Qed.

Lemma np_mean_Ok (a : list Qc) (m : Qc) :
  np_mean a = Ok m ↔ a ≠ [] ∧ m = np_sum a / s_of_nat (length a).
Proof.
  destruct a as [|x a].
  - rewrite np_mean_nil. split; [discriminate|]. by intros [? _].
  - rewrite np_mean_cons. cbn [length]. split.
    + intros [= <-]. done.
    + intros [_ ->]. done.
Qed.

Lemma np_mean_shift (a : list Qc) (m c : Qc) :
  np_mean a = Ok m → np_mean ((λ x, x + c) <$> a) = Ok (m + c).
Proof.
  rewrite !np_mean_Ok. intros [Ha ->]. split.
  - by destruct a.
  - rewrite length_fmap, np_sum_shift. field.
    rewrite Qc_of_nat_zero. by destruct a.
Qed.

Lemma np_mean_scale (a : list Qc) (m c : Qc) :
  np_mean a = Ok m → np_mean ((λ x, x * c) <$> a) = Ok (m * c).
Proof.
  rewrite !np_mean_Ok. intros [Ha ->]. split.
  - by destruct a.
  - rewrite length_fmap, np_sum_scale. field.
    rewrite Qc_of_nat_zero. by destruct a.
Qed.

End quantile_mapping_rationals.

Section quantile_mapping_properties.
Local Open Scope Qc_scope.
Implicit Types (self : QuantileMapping.t Qc) (obs cm_hist cm_future out : list Qc).

(** X3.  In exact arithmetic, when the observations and the historical
    model output have the same fit and the PPF of the model undoes its CDF,
    quantile mapping changes nothing: each detrending mode returns
    [cm_future] itself wherever its arithmetic is defined, the shift or the
    scaling by [delta] being undone exactly.  In floating point the shift
    and the scaling are undone up to rounding only, which is no part of
    this statement. *)
Theorem quantile_mapping_identity self obs cm_hist cm_future :
  let m := QuantileMapping.distribution self in
  inverts m →
  fit m obs = fit m cm_hist →
  (QuantileMapping.detrending self = "no_detrending" →
     QuantileMapping.apply_location self obs cm_hist cm_future = Ok cm_future)
  ∧ (QuantileMapping.detrending self = "additive" →
     cm_future ≠ [] → cm_hist ≠ [] →
     QuantileMapping.apply_location self obs cm_hist cm_future = Ok cm_future)
  ∧ (QuantileMapping.detrending self = "multiplicative" →
     ∀ mean_future mean_hist,
       np_mean cm_future = Ok mean_future → np_mean cm_hist = Ok mean_hist →
       mean_future ≠ 0 → mean_hist ≠ 0 →
       QuantileMapping.apply_location self obs cm_hist cm_future = Ok cm_future).
Proof.
  intros m Hinv Hfit.
  assert (∀ x, Spec.standard_qm m obs cm_hist x = x) as Hqm.
  { intros x. unfold Spec.standard_qm. rewrite Hfit. apply Hinv. }
  split; [|split].
  - intros Hmode. rewrite (no_detrending_spec _ _ _ _ Hmode). fold m.
    by rewrite Hqm.
  - intros Hmode Hf Hh. rewrite (additive_detrending_spec _ _ _ _ Hmode). fold m.
    apply np_mean_returns in Hf as [mf Hf]. apply np_mean_returns in Hh as [mh Hh].
    apply additive_Ok. exists mf, mh. repeat split; try done.
    rewrite Hqm, <- list_fmap_compose.
    rewrite <- (list_fmap_id cm_future) at 1. apply list_fmap_ext.
    intros i x _. simpl. ring.
  - intros Hmode mf mh Hf Hh Hfz Hhz.
    rewrite (multiplicative_detrending_spec _ _ _ _ Hmode). fold m.
    rewrite multiplicative_unfold.
    rewrite (multiplicative_delta_defined _ _ mf mh Hf Hh Hhz), bind_Ok_l.
    assert (mf / mh ≠ 0) as Hd.
    { intros Hd. by apply Hfz, (Qc_div_eq_zero mf mh). }
    rewrite (arr_div_scalar_nonzero cm_future _ Hd), bind_Ok_l. f_equal.
    rewrite Hqm, <- list_fmap_compose.
    rewrite <- (list_fmap_id cm_future) at 2. apply list_fmap_ext.
    intros i x _. simpl. field. split; [done|].
    intros ->. apply Hd. apply Qc_div_zero_l.
Qed.

(** X4.  Additive detrending carries a shift of the future series through:
    adding a constant to every value of [cm_future] adds that constant to
    every value of the result, because the shift moves [delta] and leaves
    the detrended series that is mapped unchanged. *)
Theorem additive_detrending_preserves_shift self obs cm_hist cm_future out (c : Qc) :
  QuantileMapping.detrending self = "additive" →
  QuantileMapping.apply_location self obs cm_hist cm_future = Ok out →
  QuantileMapping.apply_location self obs cm_hist (arr_add_scalar cm_future c)
    = Ok (arr_add_scalar out c).
Proof.
  intros Hmode. rewrite !(additive_detrending_spec _ _ _ _ Hmode).
  rewrite !additive_Ok. intros (mf & mh & Hf & Hh & ->).
  exists (mf + c), mh. split; [by apply np_mean_shift|]. split; [done|].
  unfold arr_add_scalar. change (@s_add Qc Qc_scalar) with Qcplus.
  assert ((λ x, x - (mf + c - mh)) <$> ((λ x, x + c) <$> cm_future)
          = (λ x, x - (mf - mh)) <$> cm_future) as ->.
  { rewrite <- list_fmap_compose. apply list_fmap_ext. intros i x _. simpl. ring. }
  rewrite <- list_fmap_compose. apply list_fmap_ext. intros i y _. simpl. ring.
Qed.

End quantile_mapping_properties.

Section multiplicative_scaling.
Local Open Scope Qc_scope.
Implicit Types (self : QuantileMapping.t Qc) (obs cm_hist cm_future out : list Qc).

Lemma multiplicative_Ok (m : Distribution Qc) obs cm_hist cm_future out :
  Spec.multiplicative m obs cm_hist cm_future = Ok out ↔
  ∃ mean_future mean_hist,
    np_mean cm_future = Ok mean_future ∧ np_mean cm_hist = Ok mean_hist
    ∧ mean_future ≠ 0 ∧ mean_hist ≠ 0
    ∧ out = (λ y, y * (mean_future / mean_hist)) <$>
              Spec.standard_qm m obs cm_hist
                ((λ x, x / (mean_future / mean_hist)) <$> cm_future).
Proof.
  rewrite multiplicative_unfold. split.
  - intros Hout. apply bind_Ok in Hout as (delta & Hdelta & Hout).
    apply bind_Ok in Hout as (scaled & Hscaled & Hout). injection Hout as <-.
    apply multiplicative_delta_Ok in Hdelta as (mf & mh & Hf & Hh & Hnz & ->).
    assert (cm_future ≠ []) as Hne by (apply np_mean_returns; by exists mf).
    assert (mf / mh ≠ 0) as Hd.
    { intros Hd. rewrite Hd, (arr_div_scalar_zero cm_future Hne) in Hscaled.
      discriminate Hscaled. }
    rewrite (arr_div_scalar_nonzero cm_future _ Hd) in Hscaled.
    injection Hscaled as <-. exists mf, mh. repeat split; try done.
    intros ->. apply Hd, Qc_div_zero_l.
  - intros (mf & mh & Hf & Hh & Hfz & Hnz & ->).
    assert (mf / mh ≠ 0) as Hd.
    { intros Hd. by apply Hfz, (Qc_div_eq_zero mf mh). }
    rewrite (multiplicative_delta_defined _ _ mf mh Hf Hh Hnz), bind_Ok_l.
    by rewrite (arr_div_scalar_nonzero cm_future _ Hd), bind_Ok_l.
Qed.

(** X5.  Multiplicative detrending carries a rescaling of the future series
    through: multiplying every value of [cm_future] by a non-zero constant
    multiplies every value of the result by that constant. *)
Theorem multiplicative_detrending_preserves_scale self obs cm_hist cm_future out
    (c : Qc) :
  QuantileMapping.detrending self = "multiplicative" →
  c ≠ 0 →
  QuantileMapping.apply_location self obs cm_hist cm_future = Ok out →
  QuantileMapping.apply_location self obs cm_hist (arr_mul_scalar cm_future c)
    = Ok (arr_mul_scalar out c).
Proof.
  intros Hmode Hc. rewrite !(multiplicative_detrending_spec _ _ _ _ Hmode).
  rewrite !multiplicative_Ok. intros (mf & mh & Hf & Hh & Hfz & Hnz & ->).
  exists (mf * c), mh. split; [by apply np_mean_scale|]. split; [done|].
  split; [intros Hz; by destruct (Qcmult_integral _ _ Hz)|]. split; [done|].
  unfold arr_mul_scalar. change (@s_mul Qc Qc_scalar) with Qcmult.
  assert ((λ x, x / (mf * c / mh)) <$> ((λ x, x * c) <$> cm_future)
          = (λ x, x / (mf / mh)) <$> cm_future) as ->.
  { rewrite <- list_fmap_compose. apply list_fmap_ext. intros i x _. simpl.
    field. done. }
  rewrite <- list_fmap_compose. apply list_fmap_ext. intros i y _. simpl.
  field. done.
Qed.

End multiplicative_scaling.

(** ** ECDFM: the running window attribute, the warning, untouched cells *)

Section ecdfm_properties.
Context {T : Type} `{Scalar T} `{Utils T}.

(** X6.  [__attrs_post_init__] builds [self.running_window] in
    running-window mode only, from the validated lengths: a constructed
    debiaser has the attribute exactly when the mode is on, and both lengths
    are above zero.  A debiaser whose mode is on without the attribute, as
    after switching the mode on an instance built with it off, fails with an
    AttributeError once the time information has passed its check. *)
Theorem ecdfm_running_window_attribute :
  (∀ (distribution cdf_threshold running_window_mode running_window_length
        running_window_step_length : pyval T) (self : ECDFM.t T),
     ECDFM.init distribution cdf_threshold running_window_mode
       running_window_length running_window_step_length = Ok self →
     (ECDFM.running_window_mode self = true ↔ is_Some (ECDFM.running_window self))
     ∧ (0 < ECDFM.running_window_length self)%Z
     ∧ (0 < ECDFM.running_window_step_length self)%Z
     ∧ ∀ rw, ECDFM.running_window self = Some rw →
         new_running_window (ECDFM.running_window_length self)
           (ECDFM.running_window_step_length self) = Ok rw)
  ∧ (∀ (self : ECDFM.t T) (obs cm_hist cm_future : list T)
       (time_obs time_cm_hist time_cm_future : option (list time))
       (warned : list warning) (t_obs t_cm_hist t_cm_future : list time),
     ECDFM.running_window_mode self = true →
     ECDFM.running_window self = None →
     ECDFM.time_information obs cm_hist cm_future
       time_obs time_cm_hist time_cm_future
       = (warned, (t_obs, t_cm_hist, t_cm_future)) →
     check_time_information_and_raise_error
       obs cm_hist cm_future t_obs t_cm_hist t_cm_future = None →
     ECDFM.apply_location self obs cm_hist cm_future
       time_obs time_cm_hist time_cm_future = (warned, Raise AttributeError)).
Proof.
  split.
  - intros distribution cdf_threshold mode len step self.
    unfold ECDFM.init. intros Hinit.
    apply bind_Ok in Hinit as (d & _ & Hinit).
    apply bind_Ok in Hinit as (thr & _ & Hinit).
    apply bind_Ok in Hinit as (b & _ & Hinit).
    apply bind_Ok in Hinit as (l & Hl & Hinit).
    apply bind_Ok in Hinit as (s & Hs & Hinit).
    apply bind_Ok in Hinit as (rw & Hrw & Hinit). injection Hinit as <-. simpl.
    assert (∀ v z, instance_of_int (T:=T) v ≫= gt_0 = Ok z → (0 < z)%Z) as Hpos.
    { intros v z Hz. apply bind_Ok in Hz as (z' & _ & Hz). unfold gt_0 in Hz.
      case_bool_decide; [|discriminate Hz]. by injection Hz as <-. }
    split; [|split; [by eapply Hpos|split; [by eapply Hpos|]]].
    + destruct b.
      * apply bind_Ok in Hrw as (w & _ & Hrw). injection Hrw as <-.
        split; [by eexists|done].
      * injection Hrw as <-. split; [done|]. by intros [? ?].
    + intros w ->. destruct b; [|discriminate Hrw].
      apply bind_Ok in Hrw as (w' & Hw & Hrw). by injection Hrw as <-.
  - intros self obs cm_hist cm_future t1 t2 t3 warned a b c
      Hmode Hrw Htime Hcheck.
    unfold ECDFM.apply_location. by rewrite Hmode, Htime, Hcheck, Hrw.
Qed.

(** X7.  In running-window mode the call warns exactly when one of the
    three time arguments is missing, once, and before anything is checked:
    the warning is there whether the call then returns or raises. *)
Theorem ecdfm_warns_iff_time_missing (self : ECDFM.t T)
    (obs cm_hist cm_future : list T)
    (time_obs time_cm_hist time_cm_future : option (list time)) :
  ECDFM.running_window_mode self = true →
  let warned :=
    (ECDFM.apply_location self obs cm_hist cm_future
       time_obs time_cm_hist time_cm_future).1 in
  (warned = [] ↔ is_Some time_obs ∧ is_Some time_cm_hist ∧ is_Some time_cm_future)
  ∧ (warned = [TimeInformationInferred]
     ↔ time_obs = None ∨ time_cm_hist = None ∨ time_cm_future = None).
Proof.
  intros Hmode. unfold ECDFM.apply_location. rewrite Hmode.
  unfold ECDFM.time_information.
  assert (∀ A, ¬ is_Some (@None A)) as Hnone by (intros A [? ?]; done).
  destruct time_obs as [a|], time_cm_hist as [b|], time_cm_future as [c|];
    try destruct (infer_and_create_time_arrays_if_not_given _ _ _ _ _ _)
      as [[a' b'] c'];
    simpl; (split; split; intros Hx); try done;
    try (by repeat split; eexists);
    try (by destruct Hx as [?|[?|?]]);
    try (destruct Hx as (H1 & H2 & H3);
         first [by destruct (Hnone _ H1)
               |by destruct (Hnone _ H2)
               |by destruct (Hnone _ H3)]);
    first [by left|by right; left|by right; right].
Qed.

(** X8.  The loop writes at target indices only, and nothing fills the
    rest: when the call returns, a cell of the result that no yielded pair
    targets still holds what [np.empty_like] found in memory. *)
Theorem ecdfm_untargeted_cell_uninitialised (self : ECDFM.t T)
    (rw : RunningWindowOverDaysOfYear) (obs cm_hist cm_future : list T)
    (time_obs time_cm_hist time_cm_future : option (list time))
    (warned : list warning) (t_obs t_cm_hist t_cm_future : list time)
    (out : list T) (i : nat) :
  ECDFM.running_window_mode self = true →
  ECDFM.running_window self = Some rw →
  ECDFM.time_information obs cm_hist cm_future time_obs time_cm_hist time_cm_future
    = (warned, (t_obs, t_cm_hist, t_cm_future)) →
  ECDFM.apply_location self obs cm_hist cm_future
    time_obs time_cm_hist time_cm_future = (warned, Ok out) →
  Forall (λ yielded, i ∉ yielded.2)
    (use rw (day_of_year t_cm_future) (year t_cm_future)) →
  (i < length cm_future)%nat →
  out !! i = Some (uninitialised i).
Proof.
  intros Hmode Hrw Htime Hrun Htargets Hi.
  unfold ECDFM.apply_location in Hrun. rewrite Hmode, Htime, Hrw in Hrun.
  destruct (check_time_information_and_raise_error _ _ _ _ _ _);
    [injection Hrun as Hrun; discriminate Hrun|].
  injection Hrun as Hrun.
  rewrite (correct_windows_untargeted _ _ _ _ _ _ _ _ _ _ _ i Htargets Hrun).
  unfold empty_like. rewrite list_lookup_fmap, lookup_seq_lt by done. done.
Qed.

End ecdfm_properties.

Section ecdfm_identity.
Local Open Scope Qc_scope.
Context `{Utils Qc}.

Lemma add_sub_same (a x : list Qc) :
  length a = length x → zip_with Qcminus (zip_with Qcplus x a) a = x.
Proof.
  revert x. induction a as [|u a IH]; intros [|v x] Hlen; try done.
  simpl in *. f_equal; [ring|]. apply IH. lia.
Qed.

(** X9.  When the observations and the historical model output have the
    same fit, ECDFM changes nothing, whatever the threshold and the CDF:
    the two PPF terms are equal and cancel, and the per-window core, hence
    the call without running window, returns [cm_future] itself. *)
Theorem ecdfm_same_fit_identity (self : ECDFM.t Qc) (obs cm_hist cm_future : list Qc)
    (time_obs time_cm_hist time_cm_future : option (list time)) :
  let m := ECDFM.distribution self in
  ShapePreserving m →
  fit m obs = fit m cm_hist →
  ECDFM._apply_on_within_year_window self obs cm_hist cm_future = Ok cm_future
  ∧ (ECDFM.running_window_mode self = false →
     ECDFM.apply_location self obs cm_hist cm_future
       time_obs time_cm_hist time_cm_future = ([], Ok cm_future)).
Proof.
  intros m [Hcdf Hppf] Hfit.
  assert (∀ p, length (ppf m (Spec.quantile m (ECDFM.cdf_threshold self) cm_future) p)
               = length cm_future) as Hlen.
  { intros p. unfold Spec.quantile. by rewrite Hppf, length_fmap, Hcdf. }
  assert (ECDFM._apply_on_within_year_window self obs cm_hist cm_future
          = Ok cm_future) as Hcore.
  { rewrite ecdfm_window_spec by (fold m; apply Hlen).
    unfold Spec.ecdfm_window. fold m. rewrite Hfit. f_equal.
    apply add_sub_same, Hlen. }
  split; [exact Hcore|].
  intros Hmode. unfold ECDFM.apply_location. by rewrite Hmode, Hcore.
Qed.

End ecdfm_identity.

(** ** ECDFM: what the loop writes *)

Section scatter.
Context {T : Type} `{Scalar T} `{Utils T}.

Lemma unique_mask_all_true (seen x : list nat) :
  NoDup x → (∀ i, i ∈ x → i ∉ seen) →
  unique_mask_from seen x = replicate (length x) true.
Proof.
  revert seen. induction x as [|i x IH]; intros seen Hnodup Hseen; simpl; [done|].
  apply NoDup_cons in Hnodup as [Hi Hnodup].
  rewrite bool_decide_eq_true_2 by (apply Hseen; by left). f_equal.
  apply IH; [done|]. intros j Hj. apply not_elem_of_cons. split.
  - intros ->. contradiction.
  - apply Hseen. by right.
Qed.

Lemma logical_and_true_r (mask : list bool) :
  logical_and mask (replicate (length mask) true) = mask.
Proof.
  unfold logical_and. induction mask as [|b mask IH]; simpl; [done|].
  rewrite IH. by destruct b.
Qed.

Lemma window_mask_nodup (window target : list nat) :
  NoDup window →
  logical_and (in1d window target) (get_mask_for_unique_subarray window)
    = in1d window target.
Proof.
  intros Hnodup. unfold get_mask_for_unique_subarray.
  rewrite unique_mask_all_true; [|done|intros i _; apply not_elem_of_nil].
  replace (length window) with (length (in1d window target))
    by (unfold in1d; by rewrite length_fmap).
  apply logical_and_true_r.
Qed.

(** The mask [np.in1d(window, target)] keeps of an array laid along the
    window the values at the window's target entries. *)
Lemma compress_in1d {A} (window target : list nat) (vals : list A) :
  length vals = length window →
  zip (compress (in1d window target) window) (compress (in1d window target) vals)
    = filter (λ iv, iv.1 ∈ target) (zip window vals)
  ∧ compress (in1d window target) window = filter (λ i, i ∈ target) window.
Proof.
  revert vals. induction window as [|i window IH]; intros [|v vals] Hlen;
    try done.
  simpl in Hlen. destruct (IH vals) as [IHzip IHidx]; [lia|].
  change (in1d (i :: window) target)
    with (bool_decide (i ∈ target) :: in1d window target).
  change (zip (i :: window) (v :: vals)) with ((i, v) :: zip window vals).
  destruct (decide (i ∈ target)) as [Hi|Hi].
  - rewrite bool_decide_eq_true_2 by done. cbn [compress].
    rewrite !filter_cons_True by done.
    change (zip (i :: ?a) (v :: ?b)) with ((i, v) :: zip a b).
    by rewrite IHzip, IHidx.
  - rewrite bool_decide_eq_false_2 by done. cbn [compress].
    by rewrite !filter_cons_False.
Qed.

Lemma write_all_cons {A} (out : list A) (i : nat) (idx : list nat) (v : A)
    (vals : list A) :
  write_all out (i :: idx) (v :: vals) = write_all (<[i:=v]> out) idx vals.
Proof. reflexivity. Qed.

(** With pairwise distinct indices, each written cell holds the value paired
    with its index. *)
Lemma write_all_lookup {A} (out : list A) (idx : list nat) (vals : list A)
    (k i : nat) (v : A) :
  NoDup idx →
  idx !! k = Some i → vals !! k = Some v → (i < length out)%nat →
  write_all out idx vals !! i = Some v.
Proof.
  revert out vals k. induction idx as [|j idx IH]; intros out vals k Hnodup Hi Hv Hlen;
    [done|].
  destruct vals as [|u vals]; [done|].
  apply NoDup_cons in Hnodup as [Hj Hnodup]. rewrite write_all_cons.
  destruct k as [|k]; simpl in Hi, Hv.
  - injection Hi as ->. injection Hv as ->.
    rewrite write_all_untouched by done. by apply list_lookup_insert_eq.
  - apply (IH _ _ k); try done. by rewrite length_insert.
Qed.

End scatter.

Section scatter_loop.
Context {T : Type} `{Scalar T} `{Utils T}.

Lemma correct_window_unfold (self : ECDFM.t T) (rw : RunningWindowOverDaysOfYear)
    (obs cm_hist cm_future : list T) (t_obs t_cm_hist t_cm_future : list time)
    (out : list T) (yielded : Z * list nat) :
  ECDFM.correct_window self rw obs cm_hist cm_future
    (day_of_year t_obs) (day_of_year t_cm_hist) (day_of_year t_cm_future)
    out yielded
  = (corrected ← window_correction self rw obs cm_hist cm_future
                   t_obs t_cm_hist t_cm_future yielded.1;
     kept ← select_mask corrected
               (logical_and
                  (in1d (get_indices_vals_in_window rw (day_of_year t_cm_future)
                           yielded.1) yielded.2)
                  (get_mask_for_unique_subarray
                     (get_indices_vals_in_window rw (day_of_year t_cm_future)
                        yielded.1)));
     assign_indices out yielded.2 kept).
Proof.
  unfold ECDFM.correct_window, window_correction.
  destruct (take_indices obs _) as [obs_w| |e]; [|reflexivity..].
  destruct (take_indices cm_hist _) as [cm_hist_w| |e]; [|reflexivity..].
  destruct (take_indices cm_future _) as [cm_future_w| |e]; reflexivity.
Qed.

Lemma window_correction_valid (self : ECDFM.t T) (rw : RunningWindowOverDaysOfYear)
    (obs cm_hist cm_future : list T) (t_obs t_cm_hist t_cm_future : list time)
    (yielded : Z * list nat) :
  ShapePreserving (ECDFM.distribution self) →
  window_valid rw obs cm_hist cm_future t_obs t_cm_hist t_cm_future yielded →
  ∃ corrected,
    window_correction self rw obs cm_hist cm_future
      t_obs t_cm_hist t_cm_future yielded.1 = Ok corrected
    ∧ length corrected
      = length (get_indices_vals_in_window rw (day_of_year t_cm_future) yielded.1).
Proof.
  intros Hshape (Hobs & Hhist & Hfuture & _). unfold window_correction.
  destruct (take_indices_in_range obs _ Hobs) as (obs_w & -> & _).
  destruct (take_indices_in_range cm_hist _ Hhist) as (cm_hist_w & -> & _).
  destruct (take_indices_in_range cm_future _ Hfuture) as (cm_future_w & -> & Hlen).
  rewrite !bind_Ok_l.
  destruct (ecdfm_window_shaped self obs_w cm_hist_w cm_future_w Hshape)
    as (corrected & -> & Hcorrected).
  exists corrected. split; [done|]. by rewrite Hcorrected.
Qed.

(** One pass with aligned targets: every target cell receives the
    correction computed at its own donor position, the other cells stay. *)
Lemma correct_window_targeted (self : ECDFM.t T) (rw : RunningWindowOverDaysOfYear)
    (obs cm_hist cm_future : list T) (t_obs t_cm_hist t_cm_future : list time)
    (out : list T) (yielded : Z * list nat) :
  let window :=
    get_indices_vals_in_window rw (day_of_year t_cm_future) yielded.1 in
  ShapePreserving (ECDFM.distribution self) →
  length out = length cm_future →
  window_valid rw obs cm_hist cm_future t_obs t_cm_hist t_cm_future yielded →
  window_aligned rw t_cm_future yielded →
  ∃ corrected out',
    window_correction self rw obs cm_hist cm_future
      t_obs t_cm_hist t_cm_future yielded.1 = Ok corrected
    ∧ ECDFM.correct_window self rw obs cm_hist cm_future
        (day_of_year t_obs) (day_of_year t_cm_hist) (day_of_year t_cm_future)
        out yielded = Ok out'
    ∧ (∀ i, i ∉ yielded.2 → out' !! i = out !! i)
    ∧ (∀ p i, window !! p = Some i → i ∈ yielded.2 →
         is_Some (corrected !! p) ∧ out' !! i = corrected !! p).
Proof.
  intros window Hshape Hout Hvalid [Hnodup Hfilter].
  destruct (window_correction_valid self rw obs cm_hist cm_future
              t_obs t_cm_hist t_cm_future yielded Hshape Hvalid)
    as (corrected & Hcorrected & Hlen).
  destruct Hvalid as (_ & _ & Hfuture & Htargets & Hsub).
  fold window in Hnodup, Hfilter, Hlen, Hfuture, Hsub.
  destruct (compress_in1d window yielded.2 corrected Hlen) as [Hzip Hidx].
  rewrite Hfilter in Hidx.
  set (kept := compress (in1d window yielded.2) corrected) in *.
  assert (length kept = length yielded.2) as Hkept.
  { unfold kept. rewrite (compress_length_same _ corrected window Hlen).
    by rewrite Hidx. }
  assert (Forall (λ i, i < length out)%nat yielded.2) as Hrange.
  { rewrite Forall_forall in Hsub, Hfuture. apply Forall_forall. intros i Hi.
    rewrite Hout. apply Hfuture, Hsub, Hi. }
  exists corrected, (write_all out yielded.2 kept).
  split; [exact Hcorrected|]. split; [|split].
  - rewrite correct_window_unfold, Hcorrected, bind_Ok_l. fold window.
    rewrite window_mask_nodup by done. unfold select_mask.
    rewrite bool_decide_eq_true_2
      by (unfold in1d; by rewrite length_fmap, Hlen).
    fold kept. rewrite bind_Ok_l. by apply assign_indices_same_shape.
  - intros i Hi. by apply write_all_untouched.
  - intros p i Hp Hi.
    assert (is_Some (corrected !! p)) as [v Hv].
    { apply lookup_lt_is_Some. rewrite Hlen. by eapply lookup_lt_Some. }
    split; [by exists v|]. rewrite Hv.
    assert ((i, v) ∈ zip yielded.2 kept) as Hin.
    { rewrite <- Hidx at 1. rewrite Hzip.
      apply list_elem_of_filter. split; [done|].
      apply list_elem_of_lookup. exists p.
      apply lookup_zip_with_Some. by exists i, v. }
    apply list_elem_of_lookup in Hin as [k Hk].
    apply lookup_zip_with_Some in Hk as (i' & v' & [= <- <-] & Hi' & Hv').
    apply (write_all_lookup out yielded.2 kept k); try done.
    rewrite Forall_forall in Hrange. by apply Hrange.
Qed.

End scatter_loop.

(** ** ECDFM: the dtype of the output array *)

Section stored_dtype.
Context {T : Type} `{Scalar T} `{Utils T}.

Lemma elem_of_all_targets (i : nat) (windows : list (Z * list nat)) :
  i ∈ all_targets windows ↔ ∃ yielded, yielded ∈ windows ∧ i ∈ yielded.2.
Proof.
  unfold all_targets. induction windows as [|w windows IH].
  - split; [by intros ?%elem_of_nil|by intros (? & ?%elem_of_nil & _)].
  - rewrite fmap_cons. simpl. rewrite elem_of_app, IH. split.
    + intros [Hi|(y & Hy & Hi)]; [exists w|exists y]; split; try done;
        [by left|by right].
    + intros (y & Hy & Hi). apply elem_of_cons in Hy as [->|Hy]; [by left|].
      right. by exists y.
Qed.

Lemma stored_as_iff (astype : T → T) (P Q : nat → Prop) (converted plain : list T) :
  (∀ i, P i ↔ Q i) →
  stored_as astype P converted plain → stored_as astype Q converted plain.
Proof.
  intros HPQ [Hlen Hcells]. split; [done|]. intros i.
  destruct (Hcells i) as [Hwritten Hother]. split.
  - intros Hi. by apply Hwritten, HPQ.
  - intros Hi. apply Hother. intros HP. by apply Hi, HPQ.
Qed.

Lemma stored_as_start (astype : T → T) (a : list T) :
  stored_as astype (λ _, False) a a.
Proof. split; [done|]. intros i. by split. Qed.

Lemma stored_as_insert (astype : T → T) (P : nat → Prop)
    (converted plain : list T) (i : nat) (v : T) :
  stored_as astype P converted plain →
  stored_as astype (λ j, j = i ∨ P j) (<[i:=astype v]> converted) (<[i:=v]> plain).
Proof.
  intros [Hlen Hcells]. split; [by rewrite !length_insert|].
  intros j. destruct (decide (j = i)) as [->|Hji].
  - split; [|intros Hnot; destruct Hnot; by left]. intros _.
    destruct (decide (i < length plain)%nat) as [Hi|Hi].
    + rewrite !list_lookup_insert_eq by (by rewrite ?Hlen). done.
    + rewrite !(proj2 (lookup_ge_None _ _)); [done|..];
        rewrite length_insert; lia.
  - rewrite !list_lookup_insert_ne by done.
    destruct (Hcells j) as [Hwritten Hother]. split.
    + intros [?|HP]; [done|]. by apply Hwritten.
    + intros Hnot. apply Hother. intros HP. apply Hnot. by right.
Qed.

Lemma write_all_stored (astype : T → T) (P : nat → Prop)
    (converted plain : list T) (idx : list nat) (vals : list T) :
  length vals = length idx →
  stored_as astype P converted plain →
  stored_as astype (λ j, j ∈ idx ∨ P j)
    (write_all converted idx (astype <$> vals)) (write_all plain idx vals).
Proof.
  revert vals converted plain P.
  induction idx as [|i idx IH]; intros [|v vals] converted plain P Hlen Hstored;
    try done.
  - apply (stored_as_iff astype P); [|done].
    intros j. split; [by right|]. by intros [?%elem_of_nil|?].
  - rewrite fmap_cons, !write_all_cons.
    apply (stored_as_iff astype (λ j, j ∈ idx ∨ (j = i ∨ P j))).
    + intros j. rewrite elem_of_cons. tauto.
    + apply IH; [simpl in Hlen; lia|]. by apply stored_as_insert.
Qed.

Lemma assign_indices_stored (astype : T → T) (P : nat → Prop)
    (converted plain plain' : list T) (idx : list nat) (vals : list T) :
  stored_as astype P converted plain →
  assign_indices plain idx vals = Ok plain' →
  ∃ converted',
    assign_indices converted idx (astype <$> vals) = Ok converted'
    ∧ stored_as astype (λ j, j ∈ idx ∨ P j) converted' plain'.
Proof.
  intros Hstored. unfold assign_indices. rewrite length_fmap, (proj1 Hstored).
  case_bool_decide as Hlen.
  - case_bool_decide; [|done]. intros [= <-]. eexists. split; [done|].
    by apply write_all_stored.
  - destruct vals as [|v [|? ?]]; try done. simpl.
    case_bool_decide; [|done]. intros [= <-].
    eexists. split; [done|].
    rewrite <- fmap_replicate. apply write_all_stored; [|done].
    by rewrite length_replicate.
Qed.

Lemma correct_window_astype_stored (astype : T → T) (P : nat → Prop)
    (self : ECDFM.t T) (rw : RunningWindowOverDaysOfYear)
    (obs cm_hist cm_future : list T) (d_obs d_cm_hist d_cm_future : list Z)
    (converted plain plain' : list T) (yielded : Z * list nat) :
  stored_as astype P converted plain →
  ECDFM.correct_window self rw obs cm_hist cm_future d_obs d_cm_hist d_cm_future
    plain yielded = Ok plain' →
  ∃ converted',
    ECDFM.correct_window_astype astype self rw obs cm_hist cm_future
      d_obs d_cm_hist d_cm_future converted yielded = Ok converted'
    ∧ stored_as astype (λ j, j ∈ yielded.2 ∨ P j) converted' plain'.
Proof.
  intros Hstored. unfold ECDFM.correct_window, ECDFM.correct_window_astype.
  intros Hstep.
  apply bind_Ok in Hstep as (obs_w & Hobs & Hstep).
  apply bind_Ok in Hstep as (cm_hist_w & Hhist & Hstep).
  apply bind_Ok in Hstep as (cm_future_w & Hfuture & Hstep).
  apply bind_Ok in Hstep as (corrected & Hcorrected & Hstep).
  apply bind_Ok in Hstep as (kept & Hkept & Hstep).
  rewrite Hobs, bind_Ok_l, Hhist, bind_Ok_l, Hfuture, bind_Ok_l.
  rewrite Hcorrected, bind_Ok_l, Hkept, bind_Ok_l.
  by apply (assign_indices_stored astype P _ plain).
Qed.

(** The run on an output array of another dtype goes through whenever the
    run on the corrections themselves does, and differs from it by the
    conversion of the cells that were written. *)
Lemma correct_windows_astype_stored (astype : T → T)
    (self : ECDFM.t T) (rw : RunningWindowOverDaysOfYear)
    (obs cm_hist cm_future : list T) (d_obs d_cm_hist d_cm_future : list Z)
    (windows : list (Z * list nat)) (P : nat → Prop)
    (converted plain plain' : list T) :
  stored_as astype P converted plain →
  ECDFM.correct_windows
    (ECDFM.correct_window self rw obs cm_hist cm_future
       d_obs d_cm_hist d_cm_future) plain windows = Ok plain' →
  ∃ converted',
    ECDFM.correct_windows
      (ECDFM.correct_window_astype astype self rw obs cm_hist cm_future
         d_obs d_cm_hist d_cm_future) converted windows = Ok converted'
    ∧ stored_as astype (λ j, j ∈ all_targets windows ∨ P j) converted' plain'.
Proof.
  revert P converted plain.
  induction windows as [|w windows IH]; intros P converted plain Hstored; simpl.
  - intros [= <-]. exists converted. split; [done|].
    apply (stored_as_iff astype P); [|done].
    intros j. split; [by right|]. by intros [?%elem_of_nil|?].
  - intros Hrun. apply bind_Ok in Hrun as (o & Ho & Hrun).
    destruct (correct_window_astype_stored astype P self rw obs cm_hist cm_future
                d_obs d_cm_hist d_cm_future converted plain o w Hstored Ho)
      as (c & -> & Hc).
    rewrite bind_Ok_l.
    destruct (IH _ c o Hc Hrun) as (converted' & -> & Hfinal).
    exists converted'. split; [done|].
    eapply stored_as_iff; [|exact Hfinal].
    intros j. unfold all_targets. rewrite fmap_cons. simpl.
    rewrite elem_of_app. fold (all_targets windows). tauto.
Qed.

(** For an array of floats nothing is converted, and the two calls are
    one. *)
Lemma apply_location_astype_id (self : ECDFM.t T) (obs cm_hist cm_future : list T)
    (time_obs time_cm_hist time_cm_future : option (list time)) :
  ECDFM.apply_location_astype id self obs cm_hist cm_future
    time_obs time_cm_hist time_cm_future
  = ECDFM.apply_location self obs cm_hist cm_future
      time_obs time_cm_hist time_cm_future.
Proof.
  unfold ECDFM.apply_location_astype, ECDFM.apply_location.
  destruct (ECDFM.running_window_mode self); [|done].
  destruct (ECDFM.time_information _ _ _ _ _ _) as [warned [[a b] c]].
  f_equal. destruct (check_time_information_and_raise_error _ _ _ _ _ _); [done|].
  destruct (ECDFM.running_window self) as [rw|]; [|done]. rewrite !bind_Ok_l.
  generalize (empty_like cm_future).
  induction (use rw (day_of_year c) (year c)) as [|w windows IH]; intros out;
    simpl; [done|].
  assert (ECDFM.correct_window_astype id self rw obs cm_hist cm_future
            (day_of_year a) (day_of_year b) (day_of_year c) out w
          = ECDFM.correct_window self rw obs cm_hist cm_future
              (day_of_year a) (day_of_year b) (day_of_year c) out w) as ->.
  { unfold ECDFM.correct_window_astype, ECDFM.correct_window.
    destruct (take_indices obs _) as [obs_w| |e]; [|done..].
    destruct (take_indices cm_hist _) as [cm_hist_w| |e]; [|done..].
    destruct (take_indices cm_future _) as [cm_future_w| |e]; [|done..].
    rewrite !bind_Ok_l.
    destruct (ECDFM._apply_on_within_year_window _ _ _ _) as [corrected| |e];
      [|done..].
    rewrite !bind_Ok_l.
    destruct (select_mask _ _) as [kept| |e]; [|done..].
    by rewrite !bind_Ok_l, list_fmap_id. }
  destruct (ECDFM.correct_window _ _ _ _ _ _ _ _ _ _) as [o| |e]; [|done..].
  rewrite !bind_Ok_l. apply IH.
Qed.

End stored_dtype.

Section scatter_result.
Context {T : Type} `{Scalar T} `{Utils T}.

Lemma correct_windows_targeted (self : ECDFM.t T) (rw : RunningWindowOverDaysOfYear)
    (obs cm_hist cm_future : list T) (t_obs t_cm_hist t_cm_future : list time)
    (windows : list (Z * list nat)) (out0 : list T) :
  ShapePreserving (ECDFM.distribution self) →
  length out0 = length cm_future →
  Forall (window_valid rw obs cm_hist cm_future t_obs t_cm_hist t_cm_future)
    windows →
  Forall (window_aligned rw t_cm_future) windows →
  NoDup (all_targets windows) →
  ∃ out,
    ECDFM.correct_windows
      (ECDFM.correct_window self rw obs cm_hist cm_future
         (day_of_year t_obs) (day_of_year t_cm_hist) (day_of_year t_cm_future))
      out0 windows = Ok out
    ∧ (∀ i, i ∉ all_targets windows → out !! i = out0 !! i)
    ∧ Forall (λ yielded,
        ∃ corrected,
          window_correction self rw obs cm_hist cm_future
            t_obs t_cm_hist t_cm_future yielded.1 = Ok corrected
          ∧ ∀ p i,
              get_indices_vals_in_window rw (day_of_year t_cm_future) yielded.1
                !! p = Some i →
              i ∈ yielded.2 →
              is_Some (corrected !! p) ∧ out !! i = corrected !! p) windows.
Proof.
  intros Hshape Hout0 Hvalid. revert out0 Hout0.
  induction Hvalid as [|y windows Hy Hvalid IH]; intros out0 Hout0 Haligned Hnodup.
  - exists out0. split; [done|]. split; [done|constructor].
  - apply Forall_cons in Haligned as [Hay Haligned].
    unfold all_targets in Hnodup. rewrite fmap_cons in Hnodup. simpl in Hnodup.
    apply NoDup_app in Hnodup as (Hny & Hdisjoint & Hnrest).
    destruct (correct_window_targeted self rw obs cm_hist cm_future
                t_obs t_cm_hist t_cm_future out0 y Hshape Hout0 Hy Hay)
      as (corrected & o1 & Hcorrected & Ho1 & Hkeep & Hwritten).
    assert (length o1 = length cm_future) as Hlen1.
    { rewrite <- Hout0. by apply correct_window_length in Ho1. }
    destruct (IH o1 Hlen1 Haligned Hnrest) as (out & Hrun & Hrest & Hall).
    exists out. split; [|split].
    + simpl. by rewrite Ho1, bind_Ok_l.
    + intros i Hi. unfold all_targets in Hi. rewrite fmap_cons in Hi.
      simpl in Hi. apply not_elem_of_app in Hi as [Hiy Hirest].
      rewrite Hrest by done. by apply Hkeep.
    + constructor; [|exact Hall].
      exists corrected. split; [exact Hcorrected|]. intros p i Hp Hi.
      destruct (Hwritten p i Hp Hi) as [Hsome Hval]. split; [exact Hsome|].
      rewrite Hrest by (by apply Hdisjoint). exact Hval.
Qed.

(** X10.  When the yielded windows are valid and aligned and no index is
    targeted twice, the call returns, and each targeted cell of the result
    holds the correction that the per-window core computed, on the three
    donor subsets of the window that targets the cell, for that very index,
    the value at the position the index has among the donor indices of
    [cm_future], converted to the dtype of [cm_future]: unchanged for an
    array of floats. *)
Theorem ecdfm_target_cell_holds_its_correction (astype : T → T)
    (self : ECDFM.t T)
    (rw : RunningWindowOverDaysOfYear) (obs cm_hist cm_future : list T)
    (time_obs time_cm_hist time_cm_future : option (list time))
    (warned : list warning) (t_obs t_cm_hist t_cm_future : list time) :
  let windows := use rw (day_of_year t_cm_future) (year t_cm_future) in
  ShapePreserving (ECDFM.distribution self) →
  ECDFM.running_window_mode self = true →
  ECDFM.running_window self = Some rw →
  ECDFM.time_information obs cm_hist cm_future time_obs time_cm_hist time_cm_future
    = (warned, (t_obs, t_cm_hist, t_cm_future)) →
  check_time_information_and_raise_error
    obs cm_hist cm_future t_obs t_cm_hist t_cm_future = None →
  windows_valid rw obs cm_hist cm_future t_obs t_cm_hist t_cm_future →
  Forall (window_aligned rw t_cm_future) windows →
  NoDup (all_targets windows) →
  ∃ out,
    ECDFM.apply_location_astype astype self obs cm_hist cm_future
      time_obs time_cm_hist time_cm_future = (warned, Ok out)
    ∧ Forall (λ yielded,
        ∃ corrected,
          window_correction self rw obs cm_hist cm_future
            t_obs t_cm_hist t_cm_future yielded.1 = Ok corrected
          ∧ ∀ p i,
              get_indices_vals_in_window rw (day_of_year t_cm_future) yielded.1
                !! p = Some i →
              i ∈ yielded.2 →
              is_Some (corrected !! p) ∧ out !! i = astype <$> corrected !! p)
        windows.
Proof.
  intros windows Hshape Hmode Hrw Htime Hcheck Hvalid Haligned Hnodup.
  destruct (correct_windows_targeted self rw obs cm_hist cm_future
              t_obs t_cm_hist t_cm_future windows (empty_like cm_future)
              Hshape (empty_like_length cm_future) Hvalid Haligned Hnodup)
    as (plain & Hrun & _ & Hall).
  destruct (correct_windows_astype_stored astype self rw obs cm_hist cm_future
              _ _ _ windows (λ _, False) _ _ plain
              (stored_as_start astype _) Hrun) as (out & Hout & _ & Hcells).
  exists out. split.
  - unfold windows in Hout.
    unfold ECDFM.apply_location_astype. rewrite Hmode, Htime, Hcheck, Hrw.
    by rewrite bind_Ok_l, Hout.
  - apply Forall_forall. intros y Hy. rewrite Forall_forall in Hall.
    destruct (Hall y Hy) as (corrected & Hcorrected & Hcell).
    exists corrected. split; [done|]. intros p i Hp Hi.
    destruct (Hcell p i Hp Hi) as [Hsome Hval]. split; [done|].
    rewrite <- Hval. apply Hcells. left. apply elem_of_all_targets. by exists y.
Qed.

End scatter_result.

Section targets_outside_the_window.
Context {T : Type} `{Scalar T} `{Utils T}.

Lemma window_mask_count_general {A} (target window : list nat) (vals : list A) :
  NoDup target →
  length vals = length window →
  length (compress (logical_and (in1d window target)
                                (get_mask_for_unique_subarray window)) vals)
    = length (filter (λ i, i ∈ window) target).
Proof.
  intros Hnodup Hlen. unfold get_mask_for_unique_subarray.
  rewrite (compress_length_same _ vals window Hlen).
  destruct (window_mask_keeps target window []) as [Hkept_nodup Hkept].
  apply Permutation_length, NoDup_Permutation; [done|by apply NoDup_filter|].
  intros i. rewrite Hkept, list_elem_of_filter.
  split; [tauto|]. intros [? ?]. repeat split; try done. apply not_elem_of_nil.
Qed.

Lemma correct_windows_app (step : list T → Z * list nat → outcome (list T))
    (out : list T) (before after : list (Z * list nat)) :
  ECDFM.correct_windows step out (before ++ after)
    = (o ← ECDFM.correct_windows step out before;
       ECDFM.correct_windows step o after).
Proof.
  revert out. induction before as [|w before IH]; intros out; simpl; [done|].
  destruct (step out w) as [o| |e]; simpl; [apply IH|done..].
Qed.

(** One pass whose targets are distinct and in range, the donors being in
    range: the mask keeps one value per target found among the donor
    indices of [cm_future]. *)
Lemma correct_window_kept (self : ECDFM.t T) (rw : RunningWindowOverDaysOfYear)
    (obs cm_hist cm_future : list T) (t_obs t_cm_hist t_cm_future : list time)
    (out : list T) (yielded : Z * list nat) :
  ShapePreserving (ECDFM.distribution self) →
  donors_in_range rw obs cm_hist cm_future t_obs t_cm_hist t_cm_future yielded.1 →
  NoDup yielded.2 →
  ∃ kept,
    length kept
      = length (filter
                  (λ i, i ∈ get_indices_vals_in_window rw
                              (day_of_year t_cm_future) yielded.1) yielded.2)
    ∧ ECDFM.correct_window self rw obs cm_hist cm_future
        (day_of_year t_obs) (day_of_year t_cm_hist) (day_of_year t_cm_future)
        out yielded = assign_indices out yielded.2 kept.
Proof.
  intros Hshape (Hobs & Hhist & Hfuture) Hnodup. unfold ECDFM.correct_window.
  destruct (take_indices_in_range obs _ Hobs) as (obs_w & -> & _).
  destruct (take_indices_in_range cm_hist _ Hhist) as (cm_hist_w & -> & _).
  destruct (take_indices_in_range cm_future _ Hfuture) as (cm_future_w & -> & Hlen).
  rewrite !bind_Ok_l.
  destruct (ecdfm_window_shaped self obs_w cm_hist_w cm_future_w Hshape)
    as (vals & -> & Hvals).
  rewrite Hlen in Hvals. rewrite bind_Ok_l. unfold select_mask.
  rewrite bool_decide_eq_true_2
    by (unfold get_mask_for_unique_subarray; by rewrite window_mask_length).
  rewrite bind_Ok_l. eexists. split; [|reflexivity].
  by apply window_mask_count_general.
Qed.

(** X11.  The scatter needs one kept value per target.  When the windows
    before a yielded pair are valid and that pair has distinct targets in
    range of which neither all nor exactly one are among the donor indices
    of [cm_future], the call raises a ValueError; when exactly one of
    several targets is among them and the pair is the last one, the call
    returns and every target cell of the pair holds one and the same value,
    the single kept one, without any error. *)
Theorem ecdfm_targets_outside_donor_window (self : ECDFM.t T)
    (rw : RunningWindowOverDaysOfYear) (obs cm_hist cm_future : list T)
    (time_obs time_cm_hist time_cm_future : option (list time))
    (warned : list warning) (t_obs t_cm_hist t_cm_future : list time)
    (before after : list (Z * list nat)) (yielded : Z * list nat) :
  let inside :=
    filter (λ i, i ∈ get_indices_vals_in_window rw
                       (day_of_year t_cm_future) yielded.1) yielded.2 in
  ShapePreserving (ECDFM.distribution self) →
  ECDFM.running_window_mode self = true →
  ECDFM.running_window self = Some rw →
  ECDFM.time_information obs cm_hist cm_future time_obs time_cm_hist time_cm_future
    = (warned, (t_obs, t_cm_hist, t_cm_future)) →
  check_time_information_and_raise_error
    obs cm_hist cm_future t_obs t_cm_hist t_cm_future = None →
  use rw (day_of_year t_cm_future) (year t_cm_future) = before ++ yielded :: after →
  Forall (window_valid rw obs cm_hist cm_future t_obs t_cm_hist t_cm_future)
    before →
  donors_in_range rw obs cm_hist cm_future t_obs t_cm_hist t_cm_future yielded.1 →
  NoDup yielded.2 →
  Forall (λ i, i < length cm_future)%nat yielded.2 →
  (length inside ≠ length yielded.2 → length inside ≠ 1%nat →
     ECDFM.apply_location self obs cm_hist cm_future
       time_obs time_cm_hist time_cm_future = (warned, Raise ValueError))
  ∧ (length inside = 1%nat → length yielded.2 ≠ 1%nat → after = [] →
     ∃ v out,
       ECDFM.apply_location self obs cm_hist cm_future
         time_obs time_cm_hist time_cm_future = (warned, Ok out)
       ∧ ∀ i, i ∈ yielded.2 → out !! i = Some v).
Proof.
  intros inside Hshape Hmode Hrw Htime Hcheck Huse Hbefore Hdonors Hnodup Hrange.
  destruct (correct_windows_valid self rw obs cm_hist cm_future
              t_obs t_cm_hist t_cm_future before (empty_like cm_future)
              Hshape (empty_like_length cm_future) Hbefore) as [o Ho].
  assert (length o = length cm_future) as Hlen.
  { apply correct_windows_length in Ho.
    - by rewrite Ho, empty_like_length.
    - intros o1 w o2. apply correct_window_length. }
  destruct (correct_window_kept self rw obs cm_hist cm_future
              t_obs t_cm_hist t_cm_future o yielded Hshape Hdonors Hnodup)
    as (kept & Hkept & Hpass).
  fold inside in Hkept.
  assert (ECDFM.apply_location self obs cm_hist cm_future
            time_obs time_cm_hist time_cm_future
          = (warned,
             o' ← assign_indices o yielded.2 kept;
             ECDFM.correct_windows
               (ECDFM.correct_window self rw obs cm_hist cm_future
                  (day_of_year t_obs) (day_of_year t_cm_hist)
                  (day_of_year t_cm_future)) o' after)) as ->.
  { unfold ECDFM.apply_location. rewrite Hmode, Htime, Hcheck, Hrw.
    rewrite bind_Ok_l, Huse, correct_windows_app, Ho, bind_Ok_l. simpl.
    by rewrite Hpass. }
  unfold assign_indices. rewrite Hlen.
  rewrite (bool_decide_eq_true_2 _ Hrange). split.
  - intros Hall Hone. rewrite Hkept, bool_decide_eq_false_2 by done.
    by destruct kept as [|v [|? ?]].
  - intros Hone Hseveral ->. rewrite Hkept, Hone.
    rewrite bool_decide_eq_false_2 by done.
    destruct kept as [|v [|? ?]]; try (simpl in Hkept; lia).
    exists v. eexists. split; [reflexivity|].
    intros i Hi. apply list_elem_of_lookup in Hi as [k Hk].
    apply (write_all_lookup _ yielded.2 _ k); try done.
    + apply lookup_replicate_2. by eapply lookup_lt_Some.
    + rewrite Hlen. rewrite Forall_forall in Hrange. apply Hrange.
      apply list_elem_of_lookup. by exists k.
Qed.

End targets_outside_the_window.

(** ** ECDFM: windows that overlap, and one window for everything *)

Section overlapping_targets.
Context {T : Type} `{Scalar T} `{Utils T}.

(** X12.  The loop writes window after window, and a later write replaces
    an earlier one: when the yielded windows are valid, each target cell of
    an aligned window that no later window targets holds, in the result, the
    correction computed on the donor subsets of that window, converted to
    the dtype of [cm_future], whatever the earlier windows wrote there. *)
Theorem ecdfm_last_write_wins (astype : T → T) (self : ECDFM.t T)
    (rw : RunningWindowOverDaysOfYear) (obs cm_hist cm_future : list T)
    (time_obs time_cm_hist time_cm_future : option (list time))
    (warned : list warning) (t_obs t_cm_hist t_cm_future : list time)
    (before after : list (Z * list nat)) (yielded : Z * list nat) :
  ShapePreserving (ECDFM.distribution self) →
  ECDFM.running_window_mode self = true →
  ECDFM.running_window self = Some rw →
  ECDFM.time_information obs cm_hist cm_future time_obs time_cm_hist time_cm_future
    = (warned, (t_obs, t_cm_hist, t_cm_future)) →
  check_time_information_and_raise_error
    obs cm_hist cm_future t_obs t_cm_hist t_cm_future = None →
  use rw (day_of_year t_cm_future) (year t_cm_future) = before ++ yielded :: after →
  windows_valid rw obs cm_hist cm_future t_obs t_cm_hist t_cm_future →
  window_aligned rw t_cm_future yielded →
  ∃ out corrected,
    ECDFM.apply_location_astype astype self obs cm_hist cm_future
      time_obs time_cm_hist time_cm_future = (warned, Ok out)
    ∧ window_correction self rw obs cm_hist cm_future
        t_obs t_cm_hist t_cm_future yielded.1 = Ok corrected
    ∧ ∀ p i,
        get_indices_vals_in_window rw (day_of_year t_cm_future) yielded.1 !! p
          = Some i →
        i ∈ yielded.2 →
        Forall (λ later : Z * list nat, i ∉ later.2) after →
        is_Some (corrected !! p) ∧ out !! i = astype <$> corrected !! p.
Proof.
  intros Hshape Hmode Hrw Htime Hcheck Huse Hvalid Haligned.
  unfold windows_valid in Hvalid. rewrite Huse in Hvalid.
  apply Forall_app in Hvalid as [Hbefore Hvalid].
  apply Forall_cons in Hvalid as [Hyielded Hafter].
  destruct (correct_windows_valid self rw obs cm_hist cm_future
              t_obs t_cm_hist t_cm_future before (empty_like cm_future)
              Hshape (empty_like_length cm_future) Hbefore) as [o Ho].
  assert (length o = length cm_future) as Hlen.
  { apply correct_windows_length in Ho.
    - by rewrite Ho, empty_like_length.
    - intros o1 w o2. apply correct_window_length. }
  destruct (correct_window_targeted self rw obs cm_hist cm_future
              t_obs t_cm_hist t_cm_future o yielded Hshape Hlen Hyielded Haligned)
    as (corrected & o1 & Hcorrected & Ho1 & _ & Hwritten).
  assert (length o1 = length cm_future) as Hlen1.
  { rewrite <- Hlen. by apply correct_window_length in Ho1. }
  destruct (correct_windows_valid self rw obs cm_hist cm_future
              t_obs t_cm_hist t_cm_future after o1 Hshape Hlen1 Hafter)
    as [plain Hplain].
  assert (ECDFM.correct_windows
            (ECDFM.correct_window self rw obs cm_hist cm_future
               (day_of_year t_obs) (day_of_year t_cm_hist)
               (day_of_year t_cm_future))
            (empty_like cm_future) (before ++ yielded :: after) = Ok plain)
    as Hrun.
  { rewrite correct_windows_app, Ho, bind_Ok_l. simpl.
    by rewrite Ho1, bind_Ok_l. }
  destruct (correct_windows_astype_stored astype self rw obs cm_hist cm_future
              _ _ _ _ (λ _, False) _ _ plain
              (stored_as_start astype _) Hrun) as (out & Hout & _ & Hcells).
  exists out, corrected. split; [|split; [exact Hcorrected|]].
  - unfold ECDFM.apply_location_astype. rewrite Hmode, Htime, Hcheck, Hrw.
    by rewrite bind_Ok_l, Huse, Hout.
  - intros p i Hp Hi Hlater.
    destruct (Hwritten p i Hp Hi) as [Hsome Hval]. split; [done|].
    rewrite <- Hval.
    rewrite <- (correct_windows_untargeted _ _ _ _ _ _ _ _ _ _ _ i Hlater Hplain).
    apply Hcells. left. apply elem_of_all_targets. exists yielded.
    split; [|done]. apply elem_of_app. right. by left.
Qed.

End overlapping_targets.

Section one_window.
Context {T : Type} `{Scalar T} `{Utils T}.

Lemma take_indices_all {A} (a : list A) : take_indices a (seq 0 (length a)) = Ok a.
Proof.
  unfold take_indices.
  assert (mapM (λ i, a !! i) (seq 0 (length a)) = Some a) as ->; [|done].
  apply mapM_Some. apply Forall2_same_length_lookup_2; [by rewrite length_seq|].
  intros i x y Hx Hy. apply lookup_seq in Hx as [-> _]. exact Hy.
Qed.

Lemma in1d_all (window target : list nat) :
  Forall (λ i, i ∈ target) window →
  in1d window target = replicate (length window) true.
Proof.
  unfold in1d. induction 1 as [|i window Hi _ IH]; [done|].
  rewrite fmap_cons, IH. by rewrite bool_decide_eq_true_2.
Qed.

Lemma compress_all_true {A} (a : list A) : compress (replicate (length a) true) a = a.
Proof. induction a as [|x a IH]; simpl; [done|]. by rewrite IH. Qed.

Lemma write_all_seq {A} (out vals : list A) :
  length out = length vals → write_all out (seq 0 (length vals)) vals = vals.
Proof.
  intros Hlen. apply list_eq. intros i.
  destruct (vals !! i) as [v|] eqn:Hv.
  - apply (write_all_lookup out _ vals i); try done.
    + apply NoDup_seq.
    + apply lookup_seq. split; [done|]. by eapply lookup_lt_Some.
    + rewrite Hlen. by eapply lookup_lt_Some.
  - apply lookup_ge_None. rewrite write_all_length, Hlen.
    by apply lookup_ge_None.
Qed.

(** X13.  A running window that holds everything: when the iterator
    yields a single pair that targets every index of [cm_future] and the
    donor indices of that window are all the indices of each series, the
    call in running-window mode returns what the per-window core returns on
    the whole series, that is the result of the call without running
    window, converted to the dtype of [cm_future].  For an array of floats
    the two results are the same. *)
Theorem ecdfm_one_window_is_whole_period (astype : T → T) (self : ECDFM.t T)
    (rw : RunningWindowOverDaysOfYear) (obs cm_hist cm_future : list T)
    (time_obs time_cm_hist time_cm_future : option (list time))
    (warned : list warning) (t_obs t_cm_hist t_cm_future : list time)
    (window_center : Z) :
  ShapePreserving (ECDFM.distribution self) →
  ECDFM.running_window_mode self = true →
  ECDFM.running_window self = Some rw →
  ECDFM.time_information obs cm_hist cm_future time_obs time_cm_hist time_cm_future
    = (warned, (t_obs, t_cm_hist, t_cm_future)) →
  check_time_information_and_raise_error
    obs cm_hist cm_future t_obs t_cm_hist t_cm_future = None →
  use rw (day_of_year t_cm_future) (year t_cm_future)
    = [(window_center, seq 0 (length cm_future))] →
  get_indices_vals_in_window rw (day_of_year t_obs) window_center
    = seq 0 (length obs) →
  get_indices_vals_in_window rw (day_of_year t_cm_hist) window_center
    = seq 0 (length cm_hist) →
  get_indices_vals_in_window rw (day_of_year t_cm_future) window_center
    = seq 0 (length cm_future) →
  ∃ whole,
    ECDFM._apply_on_within_year_window self obs cm_hist cm_future = Ok whole
    ∧ ECDFM.apply_location_astype astype self obs cm_hist cm_future
        time_obs time_cm_hist time_cm_future = (warned, Ok (astype <$> whole))
    ∧ ((∀ x, astype x = x) →
       ECDFM.apply_location_astype astype self obs cm_hist cm_future
         time_obs time_cm_hist time_cm_future = (warned, Ok whole)).
Proof.
  intros Hshape Hmode Hrw Htime Hcheck Huse Hobs Hhist Hfuture.
  destruct (ecdfm_window_shaped self obs cm_hist cm_future Hshape)
    as (whole & Hwhole & Hlen).
  assert (ECDFM.apply_location_astype astype self obs cm_hist cm_future
            time_obs time_cm_hist time_cm_future
          = (warned, Ok (astype <$> whole))) as Hcall.
  { unfold ECDFM.apply_location_astype. rewrite Hmode, Htime, Hcheck, Hrw.
    rewrite bind_Ok_l, Huse. f_equal.
    cbn [ECDFM.correct_windows]. unfold ECDFM.correct_window_astype.
    cbn [fst snd].
    rewrite Hobs, Hhist, Hfuture, !take_indices_all, !bind_Ok_l.
    rewrite Hwhole, bind_Ok_l, window_mask_nodup by apply NoDup_seq.
    rewrite in1d_all by (by apply Forall_forall).
    rewrite length_seq, <- Hlen. unfold select_mask.
    rewrite bool_decide_eq_true_2 by (by rewrite length_replicate).
    rewrite bind_Ok_l, compress_all_true.
    rewrite assign_indices_same_shape.
    - rewrite bind_Ok_l. f_equal.
      rewrite <- (length_fmap astype whole). apply write_all_seq.
      by rewrite empty_like_length, length_fmap.
    - rewrite empty_like_length, <- Hlen. apply Forall_forall.
      intros i Hi. apply list_elem_of_lookup in Hi as [k Hk].
      apply lookup_seq in Hk. lia.
    - by rewrite length_fmap, length_seq. }
  exists whole. split; [exact Hwhole|]. split; [exact Hcall|].
  intros Hid. rewrite Hcall. do 2 f_equal.
  rewrite <- (list_fmap_id whole) at 2. apply list_fmap_ext. intros i x _.
  apply Hid.
Qed.

End one_window.

(** ** evaluate: the table of [goodness_of_fit_aic] *)

Section goodness_of_fit_table.
Context {T : Type} `{Scalar T}.
Import evaluation_functions.

Lemma for_each_extend {A B} (h : A → list B)
    (body : list B → A → outcome (list B)) (l : list A) (acc : list B) :
  (∀ acc x, x ∈ l → body acc x = Ok (acc ++ h x)) →
  for_each body acc l = Ok (acc ++ mjoin (h <$> l)).
Proof.
  revert acc. induction l as [|x l IH]; intros acc Hbody; simpl.
  - by rewrite app_nil_r.
  - rewrite Hbody by (by left). rewrite bind_Ok_l, IH.
    + by rewrite <- app_assoc.
    + intros acc' y Hy. apply Hbody. by right.
Qed.

Lemma join_singletons {A B} (f : A → B) (l : list A) :
  mjoin ((λ x, [f x]) <$> l) = f <$> l.
Proof.
  induction l as [|x l IH]; [done|]. rewrite !fmap_cons. simpl. by rewrite IH.
Qed.

Lemma for_each_unchanged {A S} (body : S → A → outcome S) (l : list A) (s : S) :
  (∀ s x, body s x = Ok s) → for_each body s l = Ok s.
Proof.
  intros Hbody. induction l as [|x l IH]; simpl; [done|].
  by rewrite Hbody, bind_Ok_l.
Qed.

(** X14.  With a distribution object whose [fit] and [logpdf] succeed on
    every grid cell, the table has one row per cell, in row-major order: the
    row of the cell (i, j) is at index [i * n_y + j] and holds i, j and
    twice the number of fitted parameters minus twice the sum of the log
    densities of the cell's time series.  The variable is not looked at. *)
Theorem goodness_of_fit_aic_table (norm gamma : rv T) (variable : string)
    (dataset : ndarray3 T) (d : rv T) (parameters log_densities : nat → nat → list T) :
  let n_x := (shape dataset).1.2 in
  let n_y := (shape dataset).2 in
  (∀ i j, (i < n_x)%nat → (j < n_y)%nat →
     fit d (slice dataset i j) = Ok (parameters i j)
     ∧ logpdf d (slice dataset i j) (parameters i j) = Ok (log_densities i j)) →
  ∃ table,
    goodness_of_fit_aic norm gamma variable dataset (PyRv d) = Ok table
    ∧ length table = (n_x * n_y)%nat
    ∧ ∀ i j, (i < n_x)%nat → (j < n_y)%nat →
        table !! (i * n_y + j)%nat
        = Some (s_of_nat i, s_of_nat j,
                s_sub (s_of_nat (2 * length (parameters i j)))
                      (s_mul (s_of_nat 2) (np_sum (log_densities i j)))).
Proof.
  intros n_x n_y Hcells.
  set (row := λ i j : nat,
         (s_of_nat i, s_of_nat j,
          s_sub (s_of_nat (2 * length (parameters i j)))
                (s_mul (s_of_nat 2) (np_sum (log_densities i j))))).
  set (rows := (λ i, row i <$> seq 0 n_y) <$> seq 0 n_x).
  assert (Forall (λ r, length r = n_y) rows) as Hrows.
  { unfold rows. apply Forall_fmap, Forall_forall. intros i _. simpl.
    by rewrite length_fmap, length_seq. }
  exists (mjoin rows). split; [|split].
  - unfold goodness_of_fit_aic. rewrite bind_Ok_l. fold n_x n_y.
    rewrite (for_each_extend (λ i, row i <$> seq 0 n_y)); [done|].
    intros acc i Hi. apply list_elem_of_lookup in Hi as [k Hk].
    apply lookup_seq in Hk as [Hik Hi]. simpl in Hik. subst k.
    rewrite (for_each_extend (λ j, [row i j])).
    + by rewrite join_singletons.
    + intros acc' j Hj. apply list_elem_of_lookup in Hj as [k' Hk'].
      apply lookup_seq in Hk' as [Hjk Hj]. simpl in Hjk. subst k'.
      destruct (Hcells i j Hi Hj) as [Hfit Hlog].
      unfold aic_location. by rewrite Hfit, bind_Ok_l, Hlog, !bind_Ok_l.
  - rewrite length_join, (sum_list_fmap_same n_y) by done.
    unfold rows. by rewrite length_fmap, length_seq.
  - intros i j Hi Hj.
    apply (join_lookup_Some_same_length' n_y rows i j); [done..|].
    exists (row i <$> seq 0 n_y). split.
    + unfold rows. rewrite list_lookup_fmap, lookup_seq_lt by done. done.
    + rewrite list_lookup_fmap, lookup_seq_lt by done. done.
Qed.

(** X15.  What the third argument may be.  Left at 'default', the
    distribution is the one of the variable's entry, and a variable without
    entry is an AttributeError even on an empty grid.  Any other string is
    taken for the distribution itself: the call raises an AttributeError as
    soon as the grid has a cell, and returns an empty table otherwise. *)
Theorem goodness_of_fit_aic_distribution_argument (norm gamma : rv T)
    (variable : string) (dataset : ndarray3 T) :
  (∀ d, variable_dictionary norm gamma !! variable = Some d →
     goodness_of_fit_aic norm gamma variable dataset default_distribution_name
     = goodness_of_fit_aic norm gamma variable dataset (PyRv d))
  ∧ (variable ≠ "tas" → variable ≠ "pr" →
     goodness_of_fit_aic norm gamma variable dataset default_distribution_name
     = Raise AttributeError)
  ∧ (∀ s, s ≠ "default" →
     ((0 < (shape dataset).1.2)%nat → (0 < (shape dataset).2)%nat →
        goodness_of_fit_aic norm gamma variable dataset (PyName s)
        = Raise AttributeError)
     ∧ ((shape dataset).1.2 = 0%nat ∨ (shape dataset).2 = 0%nat →
        goodness_of_fit_aic norm gamma variable dataset (PyName s) = Ok [])).
Proof.
  split; [|split].
  - intros d Hd. unfold goodness_of_fit_aic, default_distribution_name.
    by rewrite bool_decide_eq_true_2, Hd.
  - intros Htas Hpr. unfold goodness_of_fit_aic, default_distribution_name.
    rewrite bool_decide_eq_true_2 by done.
    unfold variable_dictionary.
    rewrite lookup_insert_ne by done. rewrite lookup_singleton_ne by done.
    done.
  - intros s Hs. unfold goodness_of_fit_aic.
    rewrite bool_decide_eq_false_2 by done. rewrite bind_Ok_l. split.
    + intros Hx Hy.
      destruct ((shape dataset).1.2) as [|n_x]; [lia|].
      destruct ((shape dataset).2) as [|n_y]; [lia|]. done.
    + intros [->| ->]; [done|].
      by apply for_each_unchanged.
Qed.

End goodness_of_fit_table.

(** ** Concrete runs of the properties above *)

Section quantile_mapping_runs.
Local Open Scope Qc_scope.

Lemma fit_obs_like_hist : fit sigmoid_model obs_like_hist = fit sigmoid_model cm_hist0.
Proof. apply Qc_decomp. vm_compute. reflexivity. Defined.

Lemma additive_qm_run :
  QuantileMapping.apply_location additive_qm obs0 cm_hist0 cm_future0
    = Ok [qc 65 6; qc 11 6; qc 4 3; qc 35 6].
Proof. apply Ok_Qc_list_eq. vm_compute. reflexivity. Defined.

Lemma multiplicative_qm_run :
  QuantileMapping.apply_location multiplicative_qm obs0 cm_hist0 cm_future0
    = Ok [qc 295 24; qc 79 24; qc 67 24; qc 175 24].
Proof. apply Ok_Qc_list_eq. vm_compute. reflexivity. Defined.

Lemma quantile_mapping_value_error_unreachable_witness :
  ¬ raises (QuantileMapping.apply_location additive_qm obs0 cm_hist0 [])
  ∧ QuantileMapping.apply_location unnamed_qm obs0 cm_hist0 cm_future0
    = Raise ValueError.
Proof.
  destruct (@quantile_mapping_value_error_unreachable Qc Qc_scalar) as [Hok Hbad].
  split.
  - exact (Hok (PyDistribution sigmoid_model) (PyStr "additive") additive_qm
             obs0 cm_hist0 [] eq_refl).
  - apply Hbad. compute_done.
Defined.

Lemma quantile_mapping_identity_witness :
  QuantileMapping.apply_location plain_qm obs_like_hist cm_hist0 cm_future0
    = Ok cm_future0
  ∧ QuantileMapping.apply_location additive_qm obs_like_hist cm_hist0 cm_future0
    = Ok cm_future0
  ∧ QuantileMapping.apply_location multiplicative_qm obs_like_hist cm_hist0 cm_future0
    = Ok cm_future0.
Proof.
  split; [|split].
  - exact (proj1 (quantile_mapping_identity plain_qm obs_like_hist cm_hist0
                    cm_future0 sigmoid_model_inverts fit_obs_like_hist) eq_refl).
  - apply (proj1 (proj2 (quantile_mapping_identity additive_qm obs_like_hist cm_hist0
                           cm_future0 sigmoid_model_inverts fit_obs_like_hist)));
      done.
  - refine (proj2 (proj2 (quantile_mapping_identity multiplicative_qm obs_like_hist
                            cm_hist0 cm_future0 sigmoid_model_inverts
                            fit_obs_like_hist))
              eq_refl (qc 33 8) (qc 3 2) np_mean_cm_future0 np_mean_cm_hist0 _ _);
      qc_closed_nonzero.
Defined.

Lemma additive_detrending_preserves_shift_witness :
  QuantileMapping.apply_location additive_qm obs0 cm_hist0
    (arr_add_scalar cm_future0 (qc 2 1))
  = Ok (arr_add_scalar [qc 65 6; qc 11 6; qc 4 3; qc 35 6] (qc 2 1)).
Proof.
  exact (additive_detrending_preserves_shift additive_qm obs0 cm_hist0 cm_future0
           _ (qc 2 1) eq_refl additive_qm_run).
Defined.

Lemma multiplicative_detrending_preserves_scale_witness :
  QuantileMapping.apply_location multiplicative_qm obs0 cm_hist0
    (arr_mul_scalar cm_future0 (qc 2 1))
  = Ok (arr_mul_scalar [qc 295 24; qc 79 24; qc 67 24; qc 175 24] (qc 2 1)).
Proof.
  refine (multiplicative_detrending_preserves_scale multiplicative_qm obs0 cm_hist0
            cm_future0 _ (qc 2 1) eq_refl _ multiplicative_qm_run).
  qc_closed_nonzero.
Defined.

End quantile_mapping_runs.

Section ecdfm_runs.
Local Existing Instance sample_utils.
Local Open Scope Qc_scope.

Lemma ecdfm_running_window_attribute_witness :
  ((ECDFM.running_window_mode ecdfm_windowed = true
      ↔ is_Some (ECDFM.running_window ecdfm_windowed))
   ∧ (0 < ECDFM.running_window_length ecdfm_windowed)%Z
   ∧ (0 < ECDFM.running_window_step_length ecdfm_windowed)%Z
   ∧ ∀ rw, ECDFM.running_window ecdfm_windowed = Some rw →
       new_running_window 31 10 = Ok rw)
  ∧ ECDFM.apply_location ecdfm_mode_switched obs0 cm_hist0 cm_future0
      None None None = ([TimeInformationInferred], Raise AttributeError).
Proof.
  destruct (@ecdfm_running_window_attribute Qc Qc_scalar sample_utils)
    as [Hbuilt Hswitched].
  split.
  - exact (Hbuilt (PyDistribution sigmoid_model) (PyFloat (qc 1 4)) (PyBool true)
             (PyInt 31) (PyInt 10) ecdfm_windowed eq_refl).
  - exact (Hswitched ecdfm_mode_switched obs0 cm_hist0 cm_future0 None None None
             [TimeInformationInferred] [0; 1; 2]%nat [0; 1]%nat [0; 1; 2; 3]%nat
             eq_refl eq_refl eq_refl eq_refl).
Defined.

Lemma ecdfm_warns_iff_time_missing_witness :
  (ECDFM.apply_location ecdfm_windowed obs0 cm_hist0 cm_future0
     (Some [0; 1; 2]%nat) None (Some [0; 1; 2; 3]%nat)).1
    = [TimeInformationInferred]
  ∧ (ECDFM.apply_location ecdfm_windowed obs0 cm_hist0 cm_future0
       (Some [0; 1; 2]%nat) (Some [3; 4; 5]%nat) (Some [0; 1; 2; 3]%nat)).1 = [].
Proof.
  split.
  - apply (proj2 (ecdfm_warns_iff_time_missing ecdfm_windowed obs0 cm_hist0
                    cm_future0 (Some [0; 1; 2]%nat) None (Some [0; 1; 2; 3]%nat)
                    eq_refl)).
    right. by left.
  - apply (proj1 (ecdfm_warns_iff_time_missing ecdfm_windowed obs0 cm_hist0
                    cm_future0 (Some [0; 1; 2]%nat) (Some [3; 4; 5]%nat)
                    (Some [0; 1; 2; 3]%nat) eq_refl)).
    repeat split; by eexists.
Defined.

Lemma ecdfm_same_fit_identity_witness :
  ECDFM._apply_on_within_year_window ecdfm_whole_period
    obs_like_hist cm_hist0 cm_future0 = Ok cm_future0
  ∧ ECDFM.apply_location ecdfm_whole_period obs_like_hist cm_hist0 cm_future0
      None None None = ([], Ok cm_future0).
Proof.
  destruct (ecdfm_same_fit_identity ecdfm_whole_period obs_like_hist cm_hist0
              cm_future0 None None None sigmoid_model_shape fit_obs_like_hist)
    as [Hcore Hcall].
  split; [exact Hcore|exact (Hcall eq_refl)].
Defined.

End ecdfm_runs.

Section ecdfm_scatter_runs.
Local Open Scope Qc_scope.

Lemma pair_Ok_Qc_list_eq (w : list warning) (o : outcome (list Qc)) (l : list Qc) :
  match o with Ok k => show k = show l | _ => False end → (w, o) = (w, Ok l).
Proof. intros Ho. f_equal. by apply Ok_Qc_list_eq. Defined.

Lemma ecdfm_untargeted_cell_uninitialised_witness :
  ∃ out,
    @ECDFM.apply_location Qc Qc_scalar targets_leave_cells_out
      (ecdfm_on_table _ _) obs4 cm_hist4 cm_future0 None None None
      = ([TimeInformationInferred], Ok out)
    ∧ out !! 2%nat = Some (qc (-2) 1) ∧ out !! 3%nat = Some (qc (-3) 1).
Proof.
  assert (@ECDFM.apply_location Qc Qc_scalar targets_leave_cells_out
            (ecdfm_on_table _ _) obs4 cm_hist4 cm_future0 None None None
          = ([TimeInformationInferred], Ok [qc 11 1; qc 2 1; qc (-2) 1; qc (-3) 1]))
    as Hrun by (apply pair_Ok_Qc_list_eq; vm_compute; reflexivity).
  eexists. split; [exact Hrun|]. split.
  - refine (@ecdfm_untargeted_cell_uninitialised Qc Qc_scalar targets_leave_cells_out
              (ecdfm_on_table _ _) () obs4 cm_hist4 cm_future0 None None None
              [TimeInformationInferred] (seq 0 4) (seq 0 4) (seq 0 4) _ 2%nat
              eq_refl eq_refl eq_refl Hrun _ _); [compute_done|simpl; lia].
  - refine (@ecdfm_untargeted_cell_uninitialised Qc Qc_scalar targets_leave_cells_out
              (ecdfm_on_table _ _) () obs4 cm_hist4 cm_future0 None None None
              [TimeInformationInferred] (seq 0 4) (seq 0 4) (seq 0 4) _ 3%nat
              eq_refl eq_refl eq_refl Hrun _ _); [compute_done|simpl; lia].
Defined.

Lemma ecdfm_targets_outside_donor_window_witness :
  @ECDFM.apply_location Qc Qc_scalar two_targets_of_three_inside
    (ecdfm_on_table _ _) obs4 cm_hist4 cm_future0 None None None
    = ([TimeInformationInferred], Raise ValueError)
  ∧ ∃ v out,
      @ECDFM.apply_location Qc Qc_scalar one_target_of_three_inside
        (ecdfm_on_table _ _) obs4 cm_hist4 cm_future0 None None None
        = ([TimeInformationInferred], Ok out)
      ∧ ∀ i, i ∈ [0; 1; 3]%nat → out !! i = Some v.
Proof.
  split.
  - refine (proj1 (@ecdfm_targets_outside_donor_window Qc Qc_scalar
                     two_targets_of_three_inside (ecdfm_on_table _ _) ()
                     obs4 cm_hist4 cm_future0 None None None
                     [TimeInformationInferred] (seq 0 4) (seq 0 4) (seq 0 4)
                     [] [] (1%Z, [0; 1; 3]%nat)
                     sigmoid_model_shape eq_refl eq_refl eq_refl eq_refl eq_refl
                     (Forall_nil_2 _) _ _ _) _ _);
      compute_done.
  - refine (proj2 (@ecdfm_targets_outside_donor_window Qc Qc_scalar
                     one_target_of_three_inside (ecdfm_on_table _ _) ()
                     obs4 cm_hist4 cm_future0 None None None
                     [TimeInformationInferred] (seq 0 4) (seq 0 4) (seq 0 4)
                     [] [] (1%Z, [0; 1; 3]%nat)
                     sigmoid_model_shape eq_refl eq_refl eq_refl eq_refl eq_refl
                     (Forall_nil_2 _) _ _ _) _ _ eq_refl);
      compute_done.
Defined.

End ecdfm_scatter_runs.

Section ecdfm_short_window_run.
Local Existing Instance sample_utils.
Local Open Scope Qc_scope.

Lemma short_windows_valid :
  windows_valid (3%Z, 2%Z) obs0 cm_hist0 cm_future_int
    [0; 1; 2]%nat [0; 1]%nat [0; 1; 2; 3]%nat.
Proof.
  unfold windows_valid. apply Forall_forall. intros w Hw.
  unfold window_valid.
  revert w Hw. apply Forall_forall. compute_done.
Defined.

Lemma short_windows_aligned :
  Forall (window_aligned (3%Z, 2%Z) [0; 1; 2; 3]%nat)
    (use (3%Z, 2%Z) (day_of_year [0; 1; 2; 3]%nat) (year [0; 1; 2; 3]%nat)).
Proof.
  apply Forall_forall. intros w Hw. unfold window_aligned.
  revert w Hw. apply Forall_forall. compute_done.
Defined.

Lemma ecdfm_target_cell_holds_its_correction_witness :
  ∃ out,
    ECDFM.apply_location_astype astype_int ecdfm_short_window
      obs0 cm_hist0 cm_future_int None None None
      = ([TimeInformationInferred], Ok out)
    ∧ Forall (λ yielded : Z * list nat,
        ∃ corrected,
          window_correction ecdfm_short_window (3%Z, 2%Z) obs0 cm_hist0
            cm_future_int [0; 1; 2]%nat [0; 1]%nat [0; 1; 2; 3]%nat yielded.1
            = Ok corrected
          ∧ ∀ p i,
              get_indices_vals_in_window (3%Z, 2%Z)
                (day_of_year [0; 1; 2; 3]%nat) yielded.1 !! p = Some i →
              i ∈ yielded.2 →
              is_Some (corrected !! p)
              ∧ out !! i = astype_int <$> corrected !! p)
        (use (3%Z, 2%Z) (day_of_year [0; 1; 2; 3]%nat) (year [0; 1; 2; 3]%nat)).
Proof.
  refine (ecdfm_target_cell_holds_its_correction astype_int ecdfm_short_window
            (3%Z, 2%Z) obs0 cm_hist0 cm_future_int None None None
            [TimeInformationInferred]
            [0; 1; 2]%nat [0; 1]%nat [0; 1; 2; 3]%nat
            sigmoid_model_shape eq_refl eq_refl eq_refl eq_refl
            short_windows_valid short_windows_aligned _).
  compute_done.
Defined.

End ecdfm_short_window_run.

Section ecdfm_overlap_runs.
Local Open Scope Qc_scope.

Lemma overlapping_windows_valid :
  @windows_valid Qc overlapping_targets_table ()
    obs_late cm_hist4 cm_future_int (seq 0 4) (seq 0 4) (seq 0 4).
Proof.
  unfold windows_valid. apply Forall_forall. intros w Hw.
  unfold window_valid.
  revert w Hw. apply Forall_forall. compute_done.
Defined.

(** The two windows disagree on the cell 1, 2 from the first and 11/3 from
    the second, and the result holds the second, as the integer 3. *)
Lemma ecdfm_last_write_wins_witness :
  (∃ out corrected,
     @ECDFM.apply_location_astype Qc Qc_scalar overlapping_targets_table
       astype_int (ecdfm_on_table _ _) obs_late cm_hist4 cm_future_int
       None None None = ([TimeInformationInferred], Ok out)
     ∧ @window_correction Qc Qc_scalar overlapping_targets_table
         (ecdfm_on_table _ _) () obs_late cm_hist4 cm_future_int
         (seq 0 4) (seq 0 4) (seq 0 4) 2%Z = Ok corrected
     ∧ ∀ p i,
         [1; 2; 3]%nat !! p = Some i →
         i ∈ [1; 2; 3]%nat →
         Forall (λ later : Z * list nat, i ∉ later.2) [] →
         is_Some (corrected !! p) ∧ out !! i = astype_int <$> corrected !! p)
  ∧ @window_correction Qc Qc_scalar overlapping_targets_table
      (ecdfm_on_table _ _) () obs_late cm_hist4 cm_future_int
      (seq 0 4) (seq 0 4) (seq 0 4) 1%Z = Ok [qc 11 1; qc 2 1; qc 4 1]
  ∧ @window_correction Qc Qc_scalar overlapping_targets_table
      (ecdfm_on_table _ _) () obs_late cm_hist4 cm_future_int
      (seq 0 4) (seq 0 4) (seq 0 4) 2%Z = Ok [qc 11 3; qc 17 3; qc 23 3]
  ∧ @ECDFM.apply_location_astype Qc Qc_scalar overlapping_targets_table
      astype_int (ecdfm_on_table _ _) obs_late cm_hist4 cm_future_int
      None None None
    = ([TimeInformationInferred], Ok [qc 11 1; qc 3 1; qc 5 1; qc 7 1]).
Proof.
  split; [|split; [|split]].
  - refine (@ecdfm_last_write_wins Qc Qc_scalar overlapping_targets_table
              astype_int (ecdfm_on_table _ _) () obs_late cm_hist4 cm_future_int
              None None None
              [TimeInformationInferred] (seq 0 4) (seq 0 4) (seq 0 4)
              [(1%Z, [0; 1]%nat)] [] (2%Z, [1; 2; 3]%nat)
              sigmoid_model_shape eq_refl eq_refl eq_refl eq_refl eq_refl
              overlapping_windows_valid _).
    split; compute_done.
  - apply Ok_Qc_list_eq. vm_compute. reflexivity.
  - apply Ok_Qc_list_eq. vm_compute. reflexivity.
  - apply pair_Ok_Qc_list_eq. vm_compute. reflexivity.
Defined.

End ecdfm_overlap_runs.

Section ecdfm_yearlong_run.
Local Existing Instance sample_utils.
Local Open Scope Qc_scope.

(** On whole numbers the call with the year-long window returns whole
    numbers where the per-window core returns fractions. *)
Lemma ecdfm_one_window_is_whole_period_witness :
  ∃ whole,
    ECDFM._apply_on_within_year_window ecdfm_yearlong_window
      obs0 cm_hist0 cm_future_int = Ok whole
    ∧ ECDFM.apply_location_astype astype_int ecdfm_yearlong_window
        obs0 cm_hist0 cm_future_int None None None
      = ([TimeInformationInferred], Ok (astype_int <$> whole))
    ∧ ECDFM.apply_location_astype id ecdfm_yearlong_window
        obs0 cm_hist0 cm_future_int None None None
      = ([TimeInformationInferred], Ok whole).
Proof.
  destruct (ecdfm_one_window_is_whole_period astype_int ecdfm_yearlong_window
              (800%Z, 400%Z) obs0 cm_hist0 cm_future_int None None None
              [TimeInformationInferred]
              [0; 1; 2]%nat [0; 1]%nat [0; 1; 2; 3]%nat 1%Z
              sigmoid_model_shape eq_refl eq_refl eq_refl eq_refl eq_refl
              eq_refl eq_refl eq_refl) as (whole & Hwhole & Hint & _).
  destruct (ecdfm_one_window_is_whole_period id ecdfm_yearlong_window
              (800%Z, 400%Z) obs0 cm_hist0 cm_future_int None None None
              [TimeInformationInferred]
              [0; 1; 2]%nat [0; 1]%nat [0; 1; 2; 3]%nat 1%Z
              sigmoid_model_shape eq_refl eq_refl eq_refl eq_refl eq_refl
              eq_refl eq_refl eq_refl) as (whole' & Hwhole' & _ & Hfloat).
  exists whole. split; [exact Hwhole|]. split; [exact Hint|].
  rewrite Hwhole in Hwhole'. injection Hwhole' as <-.
  apply Hfloat. reflexivity.
Defined.

End ecdfm_yearlong_run.

Section goodness_of_fit_runs.
Local Open Scope Qc_scope.
Import evaluation_functions.

Lemma goodness_of_fit_aic_table_witness :
  ∃ table,
    goodness_of_fit_aic squared_distance_rv flat_rv "pr" dataset0
      (PyRv squared_distance_rv) = Ok table
    ∧ length table = 6%nat
    ∧ ∀ i j, (i < 2)%nat → (j < 3)%nat →
        table !! (i * 3 + j)%nat
        = Some (s_of_nat i, s_of_nat j,
                s_sub (s_of_nat (2 * length (fitted squared_distance_rv dataset0 i j)))
                      (s_mul (s_of_nat 2)
                         (np_sum (log_densities_of squared_distance_rv dataset0 i j)))).
Proof.
  refine (goodness_of_fit_aic_table squared_distance_rv flat_rv "pr" dataset0
            squared_distance_rv (fitted squared_distance_rv dataset0)
            (log_densities_of squared_distance_rv dataset0) _).
  intros i j Hi Hj. simpl in Hi, Hj.
  destruct i as [|[|i]]; [| |lia]; (destruct j as [|[|[|j]]]; [| | |lia]);
    split; vm_compute; reflexivity.
Defined.

Lemma goodness_of_fit_aic_distribution_argument_witness :
  goodness_of_fit_aic squared_distance_rv flat_rv "tas" dataset0
    default_distribution_name
  = goodness_of_fit_aic squared_distance_rv flat_rv "tas" dataset0
      (PyRv squared_distance_rv)
  ∧ goodness_of_fit_aic squared_distance_rv flat_rv "hurs" dataset_no_columns
      default_distribution_name = Raise AttributeError
  ∧ goodness_of_fit_aic squared_distance_rv flat_rv "tas" dataset0 (PyName "norm")
    = Raise AttributeError
  ∧ goodness_of_fit_aic squared_distance_rv flat_rv "tas" dataset_no_columns
      (PyName "norm") = Ok [].
Proof.
  destruct (goodness_of_fit_aic_distribution_argument squared_distance_rv flat_rv
              "tas" dataset0) as (Hdefault & _ & Hname).
  destruct (goodness_of_fit_aic_distribution_argument squared_distance_rv flat_rv
              "hurs" dataset_no_columns) as (_ & Hunknown & _).
  destruct (goodness_of_fit_aic_distribution_argument squared_distance_rv flat_rv
              "tas" dataset_no_columns) as (_ & _ & Hempty).
  split; [|split; [|split]].
  - apply Hdefault. reflexivity.
  - apply Hunknown; discriminate.
  - apply (Hname "norm"); [discriminate|simpl; lia..].
  - apply (Hempty "norm"); [discriminate|]. by right.
Defined.

End goodness_of_fit_runs.
